(** * Project-root resolution (flashboot_core/utils/project_utils.py)

    A shallow embedding of [ProjectRootFinder]: the marker-scoring and
    structure strategies, which walk upward through the ancestors of a start
    path, and the [find_root] orchestrator with its per-instance cache.

    Conventions of the model.
    - A resolved absolute path is the list of its components below the
      filesystem root; the root itself is the empty list.  [Path.parent],
      [Path.name] and [/] are the purely lexical operations of pathlib.
    - The filesystem is seen only through the probes the code calls
      ([exists], [is_dir], [is_file], [glob("*.py")]).  Every probe may raise,
      as pathlib's do on errors such as EACCES.
    - [exn] stands for instances of Python's [Exception] class, the ones an
      [except Exception] clause catches. *)

From stdpp Require Import base decidable option list sorting strings gmap.

Set Default Proof Using "Type".

(** ** Exceptions *)

Inductive exn : Type :=
  | FileNotFoundError (msg : string)
  | OSError (msg : string)
  | AttributeError (msg : string)
  | RuntimeError (msg : string).

Inductive exc (A : Type) : Type :=
  | Ret (a : A)
  | Raise (e : exn).
Arguments Ret {A} a.
Arguments Raise {A} e.

#[global] Instance exn_eq_dec : EqDecision exn.
Proof. solve_decision. Defined.
#[global] Instance exc_eq_dec `{EqDecision A} : EqDecision (exc A).
Proof. solve_decision. Defined.

#[global] Instance exc_ret : MRet exc := @Ret.
#[global] Instance exc_bind : MBind exc := λ A B f m,
  match m with
  | Ret a => f a
  | Raise e => Raise e
  end.

(** ** Paths *)

Module PurePath.

Abbreviation Path := (list string) (only parsing).

Definition root : Path := [].

(** [p.parent]: drop the last component; the root is its own parent. *)
Fixpoint parent (p : Path) : Path :=
  match p with
  | [] => []
  | [_] => []
  | x :: q => x :: parent q
  end.

(** [p.name]: the last component, the empty string for the root. *)
Definition name (p : Path) : string := default EmptyString (last p).

(** [p / child] for a child given by a single component name (a marker
    basename, "src", "lib"). *)
Definition joinpath (p : Path) (child : string) : Path := p ++ [child].

(** Number of [.parent] steps that lead from [p] up to its ancestor [d]. *)
Definition distance (p d : Path) : nat := length p - length d.

(** The non-root directories met when stepping upward from [p], nearest
    first: [p], [p.parent], ... down to the child of the root. *)
Fixpoint ancestors_from (n : nat) (p : Path) : list Path :=
  match n with
  | 0 => []
  | S n' => if bool_decide (p = root) then [] else p :: ancestors_from n' (parent p)
  end.
Definition ancestors (p : Path) : list Path := ancestors_from (length p) p.

End PurePath.
Export PurePath.

(** ** The filesystem, as the code observes it *)

Record FileSystem : Type := {
  fs_exists : Path → exc bool;          (* Path.exists() *)
  fs_is_dir : Path → exc bool;          (* Path.is_dir() *)
  fs_is_file : Path → exc bool;         (* Path.is_file() *)
  fs_glob_py : Path → exc (list Path);  (* list(Path.glob("*.py")) *)
}.

(** A concrete filesystem given by the list of its entries. *)
Module TreeFS.

Inductive kind : Type := File | Dir.
#[global] Instance kind_eq_dec : EqDecision kind.
Proof. solve_decision. Defined.

Definition entries : Type := list (Path * kind).

Fixpoint find_entry (es : entries) (p : Path) : option kind :=
  match es with
  | [] => None
  | (q, k) :: es' => if bool_decide (q = p) then Some k else find_entry es' p
  end.

(** The root always exists and is a directory. *)
Definition lookup (es : entries) (p : Path) : option kind :=
  if bool_decide (p = root) then Some Dir else find_entry es p.

Definition ends_with (suffix s : string) : bool :=
  String.prefix (String.rev suffix) (String.rev s).

Definition children_py (es : entries) (d : Path) : list Path :=
  filter (λ p, p ≠ root ∧ parent p = d ∧ ends_with ".py" (name p) = true)
         (es.*1).

Definition to_fs (es : entries) : FileSystem := {|
  fs_exists p := Ret (bool_decide (is_Some (lookup es p)));
  fs_is_dir p := Ret (bool_decide (lookup es p = Some Dir));
  fs_is_file p := Ret (bool_decide (lookup es p = Some File));
  fs_glob_py d :=
    Ret (if bool_decide (lookup es d = Some Dir) then children_py es d else []);
|}.

(** Every entry lies in a directory, and no path is listed twice. *)
Definition well_formed (es : entries) : Prop :=
  NoDup (es.*1) ∧
  Forall (λ e, e.1 ≠ root ∧ lookup es (parent e.1) = Some Dir) es.

#[global] Instance well_formed_dec es : Decision (well_formed es).
Proof. unfold well_formed. apply _. Defined.

End TreeFS.

(** ** The resolver instance *)

Record ProjectRootFinder : Type := {
  start_path : option Path;
  _cache : option Path;
}.

Definition _MAX_TRAVERSAL_DEPTH : nat := 50.

Definition _DEFAULT_MARKERS : list string :=
  [ "setup.py"; "pyproject.toml"; "setup.cfg"; "poetry.lock"; "uv.lock";
    "requirements.txt"; ".git"; ".gitignore"; ".hg"; "Pipfile"; "Makefile";
    ".idea"; ".vscode"; ".venv" ].

Definition _NON_ROOT_DIR_NAMES : gset string :=
  {[ ".venv"; ".idea"; ".git"; ".vscode"; ".hg" ]}.

(** ** Python's insertion-ordered dict and [max] *)

Module PyDict.

(** A dict from paths to marker counts, in insertion order. *)
Definition t : Type := list (Path * nat).

(** [d[k] = v]: overwrite in place, or append a new key at the end. *)
Fixpoint set (d : t) (k : Path) (v : nat) : t :=
  match d with
  | [] => [(k, v)]
  | (k', v') :: d' =>
      if bool_decide (k' = k) then (k, v) :: d' else (k', v') :: set d' k v
  end.

(** [max(first, *rest, key=lambda x: x[1])]: the running maximum is replaced
    only by a strictly greater item, so the first maximal item wins. *)
Fixpoint max_by_count (best : Path * nat) (rest : t) : Path * nat :=
  match rest with
  | [] => best
  | x :: rest' => max_by_count (if bool_decide (best.2 < x.2) then x else best) rest'
  end.

End PyDict.

(** ** Strategy: marker scoring ([_find_by_markers]) *)

Module Markers.

(** The variables of the [while] loop. *)
Record state : Type := {
  current : Path;
  depth : nat;
  candidates : PyDict.t;
}.

(** [sum(1 for marker in markers if (current / marker).exists())] *)
Fixpoint marker_count (fs : FileSystem) (markers : list string)
    (current : Path) : exc nat :=
  match markers with
  | [] => Ret 0
  | marker :: markers' =>
      found ← fs_exists fs (joinpath current marker);
      n ← marker_count fs markers' current;
      Ret ((if found : bool then 1 else 0) + n)
  end.

(** [while current != current.parent and depth < self._MAX_TRAVERSAL_DEPTH] *)
Definition guard (st : state) : bool :=
  bool_decide (current st ≠ parent (current st))
  && bool_decide (depth st < _MAX_TRAVERSAL_DEPTH).

(** [depth += 1], the first statement of the loop body. *)
Definition incr_depth (st : state) : state :=
  {| current := current st; depth := S (depth st); candidates := candidates st |}.

(** [current = current.parent; continue] *)
Definition step_up (st : state) : state :=
  {| current := parent (current st); depth := depth st; candidates := candidates st |}.

(** The rest of the loop body.  It raises when a filesystem probe raises;
    the dict is written only after the last probe. *)
Definition body (fs : FileSystem) (markers : list string) (st : state) : exc state :=
  ex ← fs_exists fs (current st);
  missing ← (if ex : bool
             then is_dir ← fs_is_dir fs (current st); Ret (negb is_dir)
             else Ret true);
  if missing : bool then Ret (step_up st)
  else if bool_decide (name (current st) ∈ _NON_ROOT_DIR_NAMES) then Ret (step_up st)
  else
    count ← marker_count fs markers (current st);
    let candidates' :=
      if bool_decide (0 < count)
      then PyDict.set (candidates st) (current st) count
      else candidates st in
    Ret {| current := parent (current st); depth := depth st;
           candidates := candidates' |}.

(** The loop inside [try: ... except Exception: pass].  [None] means that
    [fuel] iterations were not enough to leave the loop. *)
Fixpoint loop (fs : FileSystem) (markers : list string) (fuel : nat)
    (st : state) : option state :=
  match fuel with
  | 0 => None
  | S fuel' =>
      if guard st then
        match body fs markers (incr_depth st) with
        | Ret st' => loop fs markers fuel' st'
        | Raise _ => Some (incr_depth st)
        end
      else Some st
  end.

(** The directories at which the loop body runs, in order. *)
Fixpoint visited (fs : FileSystem) (markers : list string) (fuel : nat)
    (st : state) : list Path :=
  match fuel with
  | 0 => []
  | S fuel' =>
      if guard st then
        current st ::
        match body fs markers (incr_depth st) with
        | Ret st' => visited fs markers fuel' st'
        | Raise _ => []
        end
      else []
  end.

(** [if not markers: markers = self._DEFAULT_MARKERS] *)
Definition effective_markers (markers : option (list string)) : list string :=
  match markers with
  | None | Some [] => _DEFAULT_MARKERS
  | Some ms => ms
  end.

(** [if current.is_file(): current = current.parent] (outside the [try]). *)
Definition start_dir (fs : FileSystem) (sp : Path) : exc Path :=
  is_file ← fs_is_file fs sp;
  Ret (if is_file : bool then parent sp else sp).

Definition init (start : Path) : state :=
  {| current := start; depth := 0; candidates := [] |}.

(** [if not candidates: return None]
    [return max(candidates.items(), key=lambda x: x[1])[0]] *)
Definition select (candidates : PyDict.t) : option Path :=
  match candidates with
  | [] => None
  | first :: rest => Some (PyDict.max_by_count first rest).1
  end.

Definition find_fuel (fuel : nat) (fs : FileSystem) (self : ProjectRootFinder)
    (markers : option (list string)) : option (exc (option Path)) :=
  match start_path self with
  | None => Some (Ret None)
  | Some sp =>
      match start_dir fs sp with
      | Raise e => Some (Raise e)
      | Ret start =>
          st ← loop fs (effective_markers markers) fuel (init start);
          Some (Ret (select (candidates st)))
      end
  end.

End Markers.

(** The loop leaves within [_MAX_TRAVERSAL_DEPTH] iterations (see
    [markers_loop_terminates]), so one more unit of fuel always suffices and
    the default below is never taken. *)
Definition _find_by_markers (fs : FileSystem) (self : ProjectRootFinder)
    (markers : option (list string)) : exc (option Path) :=
  default (Ret None) (Markers.find_fuel (S _MAX_TRAVERSAL_DEPTH) fs self markers).

(** ** Strategy: directory structure ([_find_by_structure]) *)

Module Structure.

Record state : Type := {
  current : Path;
  depth : nat;
}.

(** [while current != current.parent and depth < self._MAX_TRAVERSAL_DEPTH] *)
Definition guard (st : state) : bool :=
  bool_decide (current st ≠ parent (current st))
  && bool_decide (depth st < _MAX_TRAVERSAL_DEPTH).

(** [d.exists() and d.is_dir()] *)
Definition exists_and_is_dir (fs : FileSystem) (d : Path) : exc bool :=
  ex ← fs_exists fs d;
  if ex : bool then fs_is_dir fs d else Ret false.

(** The test made at each directory: [src/] or [lib/] is a subdirectory,
    and [list(current.glob("*.py"))] is not empty. *)
Definition qualifies (fs : FileSystem) (current : Path) : exc bool :=
  src ← exists_and_is_dir fs (joinpath current "src");
  layout ← (if src : bool then Ret true
            else exists_and_is_dir fs (joinpath current "lib"));
  if layout : bool then
    py_files ← fs_glob_py fs current;
    Ret (bool_decide (py_files ≠ []))
  else Ret false.

(** The loop; there is no [try] here, a raising probe ends the call. *)
Fixpoint loop (fs : FileSystem) (fuel : nat) (st : state)
    : option (exc (option Path)) :=
  match fuel with
  | 0 => None
  | S fuel' =>
      if guard st then
        match qualifies fs (current st) with
        | Raise e => Some (Raise e)
        | Ret true => Some (Ret (Some (current st)))
        | Ret false =>
            loop fs fuel' {| current := parent (current st); depth := S (depth st) |}
        end
      else Some (Ret None)
  end.

(** The directories at which the loop body runs, in order. *)
Fixpoint visited (fs : FileSystem) (fuel : nat) (st : state) : list Path :=
  match fuel with
  | 0 => []
  | S fuel' =>
      if guard st then
        current st ::
        match qualifies fs (current st) with
        | Ret false =>
            visited fs fuel' {| current := parent (current st); depth := S (depth st) |}
        | _ => []
        end
      else []
  end.

(** [current = self.start_path]; evaluating [current.parent] on [None]
    raises [AttributeError]. *)
Definition find_fuel (fuel : nat) (fs : FileSystem) (self : ProjectRootFinder)
    : option (exc (option Path)) :=
  match start_path self with
  | None => Some (Raise (AttributeError "'NoneType' object has no attribute 'parent'"))
  | Some sp => loop fs fuel {| current := sp; depth := 0 |}
  end.

End Structure.

(** As for [_find_by_markers], the fuel below always suffices (see
    [structure_loop_terminates]). *)
Definition _find_by_structure (fs : FileSystem) (self : ProjectRootFinder)
    : exc (option Path) :=
  default (Ret None) (Structure.find_fuel (S _MAX_TRAVERSAL_DEPTH) fs self).

(** ** The orchestrator ([find_root]) *)

(** The five strategy methods of an instance, each given by what a call
    [finder()] does: return a path, return [None], or raise.  The three
    version-control probes depend on external commands and are inputs of the
    model. *)
Record Methods : Type := {
  find_by_git : exc (option Path);
  find_by_svn : exc (option Path);
  find_by_hg : exc (option Path);
  find_by_markers : exc (option Path);
  find_by_structure : exc (option Path);
}.

(** The methods of an instance over a filesystem; [finder()] calls
    [_find_by_markers] without a marker list. *)
Definition bound_methods (fs : FileSystem) (git svn hg : exc (option Path))
    (self : ProjectRootFinder) : Methods := {|
  find_by_git := git;
  find_by_svn := svn;
  find_by_hg := hg;
  find_by_markers := _find_by_markers fs self None;
  find_by_structure := _find_by_structure fs self;
|}.

Definition method_map (ms : Methods) : gmap string (exc (option Path)) :=
  <["git" := find_by_git ms]> (
  <["svn" := find_by_svn ms]> (
  <["hg" := find_by_hg ms]> (
  <["markers" := find_by_markers ms]> (
  <["structure" := find_by_structure ms]> ∅)))).

Definition default_search_methods : list string :=
  ["git"; "svn"; "hg"; "markers"; "structure"].

Definition root_not_found : exn :=
  FileNotFoundError "Unable to locate project root directory.".

(** [for method_name in search_methods: ...].  The result is the first
    truthy strategy result, if any, together with the names of the strategies
    that were invoked, in order. *)
Fixpoint try_methods (mm : gmap string (exc (option Path)))
    (search_methods : list string) : option Path * list string :=
  match search_methods with
  | [] => (None, [])
  | method_name :: rest =>
      match mm !! method_name with
      | None => try_methods mm rest                 (* unknown: warn, continue *)
      | Some finder =>
          match finder with
          | Ret (Some result) => (Some result, [method_name])
          | Ret None | Raise _ =>                   (* falsy, or caught: continue *)
              let '(r, calls) := try_methods mm rest in (r, method_name :: calls)
          end
      end
  end.

(** [find_root] returns its result (a path, or a raised exception), the
    instance after the call, and the strategies invoked during the call. *)
Definition find_root (ms : Methods) (self : ProjectRootFinder)
    (search_methods : option (list string))
    : exc Path * ProjectRootFinder * list string :=
  match _cache self with
  | Some cached => (Ret cached, self, [])
  | None =>
      let search_methods := default default_search_methods search_methods in
      match try_methods (method_map ms) search_methods with
      | (Some result, calls) =>
          (Ret result, {| start_path := start_path self; _cache := Some result |}, calls)
      | (None, calls) => (Raise root_not_found, self, calls)
      end
  end.

(** * Specification vocabulary *)

Module MarkersSpec.
Import Markers.

(** What one run of the loop body does to the dict: nothing, or it records
    the current directory, which then exists, is a directory, is not blocked
    and holds [c ≥ 1] markers. *)
Inductive recorded (fs : FileSystem) (markers : list string)
    (st st' : state) : Prop :=
  | skipped :
      candidates st' = candidates st → recorded fs markers st st'
  | scored c :
      fs_exists fs (current st) = Ret true →
      fs_is_dir fs (current st) = Ret true →
      name (current st) ∉ _NON_ROOT_DIR_NAMES →
      marker_count fs markers (current st) = Ret c →
      0 < c →
      candidates st' = PyDict.set (candidates st) (current st) c →
      recorded fs markers st st'.

(** [m] is the first item of maximal count: the items before it have a
    strictly smaller count, the items after it have at most its count. *)
Definition first_max (items : PyDict.t) (m : list string * nat) : Prop :=
  ∃ before after,
    items = before ++ m :: after ∧
    Forall (λ x, x.2 < m.2) before ∧
    Forall (λ x, x.2 ≤ m.2) after.

(** A recorded candidate is a non-root ancestor of the start directory that
    exists, is a directory, is not blocked and holds at least one marker. *)
Definition scored_ancestor (fs : FileSystem) (markers : list string)
    (start : Path) (x : list string * nat) : Prop :=
  (x.1 `prefix_of` start) ∧ x.1 ≠ root ∧
  (name (x.1) ∉ _NON_ROOT_DIR_NAMES) ∧
  fs_exists fs x.1 = Ret true ∧ fs_is_dir fs x.1 = Ret true ∧
  marker_count fs markers x.1 = Ret x.2 ∧ 0 < x.2.

(** Recording order: every item is strictly nearer to the start (a longer
    path) than the items recorded after it. *)
Definition nearest_first (cands : PyDict.t) : Prop :=
  StronglySorted (λ x y, length y.1 < length x.1) cands.

(** The loop invariant. *)
Definition inv (fs : FileSystem) (markers : list string) (start : Path)
    (st : state) : Prop :=
  (current st `prefix_of` start) ∧
  Forall (scored_ancestor fs markers start) (candidates st) ∧
  nearest_first (candidates st) ∧
  Forall (λ x, length (current st) < length x.1) (candidates st).

End MarkersSpec.

(** What [find_root] makes of one entry of the strategy list: a strategy
    yields no result when its name is unknown, when it raises, or when it
    returns [None]. *)
Definition yields_no_result (ms : Methods) (method_name : string) : Prop :=
  match method_map ms !! method_name with
  | Some (Ret (Some _)) => False
  | _ => True
  end.

#[global] Instance yields_no_result_dec ms m : Decision (yields_no_result ms m).
Proof.
  unfold yields_no_result.
  destruct (method_map ms !! m) as [[[?|]|?]|]; apply _.
Defined.

(** The names [method_map] knows. *)
Definition known_method (method_name : string) : Prop :=
  method_name ∈ default_search_methods.

#[global] Instance known_method_dec m : Decision (known_method m).
Proof. unfold known_method. apply _. Defined.

(** A fresh instance, as [__init__] leaves it. *)
Definition new_finder (sp : Path) : ProjectRootFinder :=
  {| start_path := Some sp; _cache := None |}.

(** * Scenarios *)

Module Scenarios.
Import TreeFS.

(** A project whose virtual environment also holds the marker:
    project/M, project/.venv/M, project/.venv/lib/ *)
Definition venv_project : entries :=
  [ (["project"], Dir); (["project"; "M"], File);
    (["project"; ".venv"], Dir); (["project"; ".venv"; "M"], File);
    (["project"; ".venv"; "lib"], Dir) ].

(** monorepo/ holds a and b; monorepo/packages/ holds a;
    monorepo/packages/pkg/ holds a and b. *)
Definition monorepo : entries :=
  [ (["monorepo"], Dir);
    (["monorepo"; "a"], File); (["monorepo"; "b"], File);
    (["monorepo"; "packages"], Dir); (["monorepo"; "packages"; "a"], File);
    (["monorepo"; "packages"; "pkg"], Dir);
    (["monorepo"; "packages"; "pkg"; "a"], File);
    (["monorepo"; "packages"; "pkg"; "b"], File);
    (["monorepo"; "packages"; "pkg"; "src"], Dir) ].

Definition monorepo_start : list string := ["monorepo"; "packages"; "pkg"; "src"].

(** The loop variables when the loop is left, for markers a and b. *)
Definition monorepo_exit : Markers.state :=
  {| Markers.current := root; Markers.depth := 4;
     Markers.candidates :=
       [ (["monorepo"; "packages"; "pkg"], 2);
         (["monorepo"; "packages"], 1);
         (["monorepo"], 2) ] |}.

(** project/pyproject.toml, project/src/ *)
Definition default_project : entries :=
  [ (["project"], Dir); (["project"; "pyproject.toml"], File);
    (["project"; "src"], Dir) ].

(** Markers and a source layout directly under the filesystem root only:
    /setup.py, /main.py, /src/, /home/user/ *)
Definition root_only : entries :=
  [ (["setup.py"], File); (["main.py"], File); (["src"], Dir);
    (["home"], Dir); (["home"; "user"], Dir) ].

(** A chain of 50 nested directories proj/d/d/.../d with a source file
    main.py in the innermost one; proj/ holds src/ and app.py. *)
Definition deep_dir : list string := "proj" :: replicate 49 "d".
Definition deep_file : list string := deep_dir ++ ["main.py"].
Definition deep_project : entries :=
  ((λ n, (take n deep_dir, Dir)) <$> seq 1 50)
  ++ [ (["proj"; "src"], Dir); (["proj"; "app.py"], File); (deep_file, File) ].

(** An instance inside the virtual environment of [venv_project], with
    version-control probes that find nothing. *)
Definition venv_finder : ProjectRootFinder := new_finder ["project"; ".venv"; "lib"].
Definition venv_methods : Methods :=
  bound_methods (to_fs venv_project) (Ret None) (Ret None) (Ret None) venv_finder.

(** Strategies that all come back empty-handed, two of them by raising. *)
Definition failing_methods : Methods := {|
  find_by_git := Raise (RuntimeError "boom");
  find_by_svn := Ret None;
  find_by_hg := Ret None;
  find_by_markers := Ret None;
  find_by_structure := Raise (OSError "permission denied");
|}.

End Scenarios.

(** * The rest of the module: start-path discovery, version-control
    probes and the entry points *)

(** [str(path)] for an absolute POSIX path. *)
Definition str_path (p : list string) : string :=
  String.append "/" (String.concat "/" p).

(** [needle in haystack] on strings. *)
Fixpoint str_contains (needle haystack : string) : bool :=
  String.prefix needle haystack
  || match haystack with
     | EmptyString => false
     | String _ rest => str_contains needle rest
     end.

(** What the interpreter and the operating system supply.  The text
    operations [str.strip], [Path(text)] and the string heuristics of
    [_is_stdlib_or_site_packages] (which rest on [str.lower]) are taken as
    they are, not re-implemented. *)
Record Host : Type := {
  inspect_stack : exc (list string);       (* filenames of inspect.stack() *)
  resolve : string → exc (list string);    (* Path(text).resolve() *)
  sys_argv : list string;                  (* sys.argv *)
  cwd : exc (list string);                 (* Path.cwd() *)
  _LIBRARY_ROOT : list string;
  _is_stdlib_or_site_packages : list string → bool;
  (* result.stdout of subprocess.run(cmd, cwd=..., capture_output=True,
     text=True, check=True, timeout=5); non-zero exit, timeout and a missing
     executable raise *)
  subprocess_run : list string → option (list string) → exc string;
  str_strip : string → string;             (* str.strip() *)
  Path_of_str : string → list string;      (* Path(text) *)
}.

Module Caller.

(** [file_path.relative_to(_LIBRARY_ROOT)] succeeds exactly on the paths
    below the library root. *)
Definition _is_library_internal (h : Host) (file_path : list string) : bool :=
  bool_decide (_LIBRARY_ROOT h `prefix_of` file_path).

(** The [for] loop over the frames of [_get_caller_from_stack]. *)
Fixpoint first_external_frame (h : Host) (frames : list string)
    : exc (option (list string)) :=
  match frames with
  | [] => Ret None
  | filename :: frames' =>
      if str_contains "ipykernel_" filename then first_external_frame h frames'
      else
        frame_file ← resolve h filename;
        if _is_library_internal h frame_file then first_external_frame h frames'
        else if _is_stdlib_or_site_packages h frame_file
             then first_external_frame h frames'
        else Ret (Some (parent frame_file))
  end.

(** [try: ... for frame_info in stack[1:]: ... except Exception: pass]
    [return None] *)
Definition _get_caller_from_stack (h : Host) : option (list string) :=
  match stack ← inspect_stack h; first_external_frame h (drop 1 stack) with
  | Ret r => r
  | Raise _ => None
  end.

(** [sys.argv and sys.argv[0]], then the resolved script must exist and be
    a regular file; any exception gives [None]. *)
Definition _get_main_script_path (h : Host) (fs : FileSystem)
    : option (list string) :=
  match sys_argv h with
  | [] => None
  | argv0 :: _ =>
      if bool_decide (argv0 = EmptyString) then None
      else
        match
          main_script ← resolve h argv0;
          ex ← fs_exists fs main_script;
          is_file ← (if ex : bool then fs_is_file fs main_script else Ret false);
          Ret (if is_file : bool then Some (parent main_script) else None)
        with
        | Ret r => r
        | Raise _ => None
        end
  end.

Definition _get_caller_project_path (h : Host) (fs : FileSystem)
    : exc (list string) :=
  match _get_caller_from_stack h with
  | Some caller_path => Ret caller_path
  | None =>
      match _get_main_script_path h fs with
      | Some main_script => Ret main_script
      | None => cwd h
      end
  end.

(** [ProjectRootFinder.__init__] *)
Definition __init__ (h : Host) (fs : FileSystem) (given : option string)
    : exc ProjectRootFinder :=
  start ← match given with
          | None => _get_caller_project_path h fs
          | Some text => resolve h text
          end;
  Ret {| start_path := Some start; _cache := None |}.

End Caller.

Module Vcs.

(** [try: result = subprocess.run(...); output = result.stdout.strip();]
    [if output: return Path(output)]  [except Exception: pass]
    [return None] *)
Definition _run_vcs_command (h : Host) (self : ProjectRootFinder)
    (cmd : list string) : exc (option (list string)) :=
  match subprocess_run h cmd (start_path self) with
  | Ret stdout =>
      let output := str_strip h stdout in
      if bool_decide (output = EmptyString) then Ret None
      else Ret (Some (Path_of_str h output))
  | Raise _ => Ret None
  end.

Definition git_command : list string := ["git"; "rev-parse"; "--show-toplevel"].
Definition hg_command : list string := ["hg"; "root"].

(** [str(self.start_path)] *)
Definition str_start_path (self : ProjectRootFinder) : string :=
  match start_path self with
  | Some p => str_path p
  | None => "None"
  end.
Definition svn_command (self : ProjectRootFinder) : list string :=
  ["svn"; "info"; "--show-item"; "wcroot-abspath"; str_start_path self].

Definition _find_by_git (h : Host) (self : ProjectRootFinder) :=
  _run_vcs_command h self git_command.
Definition _find_by_svn (h : Host) (self : ProjectRootFinder) :=
  _run_vcs_command h self (svn_command self).
Definition _find_by_hg (h : Host) (self : ProjectRootFinder) :=
  _run_vcs_command h self hg_command.

End Vcs.

(** The five strategies of an instance on a host. *)
Definition host_methods (h : Host) (fs : FileSystem) (self : ProjectRootFinder)
    : Methods :=
  bound_methods fs (Vcs._find_by_git h self) (Vcs._find_by_svn h self)
    (Vcs._find_by_hg h self) self.

(** [get_root_path(start_path, search_methods)] *)
Definition get_root_path (h : Host) (fs : FileSystem)
    (given : option string) (search_methods : option (list string))
    : exc (list string) :=
  finder ← Caller.__init__ h fs given;
  (find_root (host_methods h fs finder) finder search_methods).1.1.

(** [ensure_search_path()], on the value of [sys.path]: the result and the
    new [sys.path]. *)
Definition ensure_search_path (h : Host) (fs : FileSystem)
    (sys_path : list string) : exc () * list string :=
  match get_root_path h fs None None with
  | Raise e => (Raise e, sys_path)
  | Ret root_dir =>
      let root_path := str_path root_dir in
      if bool_decide (root_path ∈ sys_path) then (Ret (), sys_path)
      else (Ret (), sys_path ++ [root_path])
  end.

(** * The traversals in closed form *)

(** Both strategies look at the non-root ancestors of their start, nearest
    first, and at no more than [_MAX_TRAVERSAL_DEPTH] of them. *)
Module Traversal.

Definition reach (start : list string) : list (list string) :=
  take _MAX_TRAVERSAL_DEPTH (ancestors start).

(** What the marker loop makes of one directory: an exception, nothing
    ([None]: missing, not a directory, blocked, or without markers), or the
    number of markers it holds. *)
Definition score (fs : FileSystem) (markers : list string) (d : list string)
    : exc (option nat) :=
  ex ← fs_exists fs d;
  missing ← (if ex : bool
             then is_dir ← fs_is_dir fs d; Ret (negb is_dir)
             else Ret true);
  if missing : bool then Ret None
  else if bool_decide (name d ∈ _NON_ROOT_DIR_NAMES) then Ret None
  else
    count ← Markers.marker_count fs markers d;
    Ret (if bool_decide (0 < count) then Some count else None).

(** The scored directories of a list, in order, up to the first directory
    at which a probe raises. *)
Fixpoint scan (fs : FileSystem) (markers : list string)
    (dirs : list (list string)) : PyDict.t :=
  match dirs with
  | [] => []
  | d :: dirs' =>
      match score fs markers d with
      | Raise _ => []
      | Ret None => scan fs markers dirs'
      | Ret (Some c) => (d, c) :: scan fs markers dirs'
      end
  end.

(** The first directory of a list that passes the structure test; a raising
    probe ends the search with its exception. *)
Fixpoint first_qualifying (fs : FileSystem) (dirs : list (list string))
    : exc (option (list string)) :=
  match dirs with
  | [] => Ret None
  | d :: dirs' =>
      match Structure.qualifies fs d with
      | Raise e => Raise e
      | Ret true => Ret (Some d)
      | Ret false => first_qualifying fs dirs'
      end
  end.

End Traversal.

(** Two outcomes that a caller discarding the exception cannot tell apart:
    the same value, or an exception on both sides. *)
Definition same_outcome {A} (x y : exc A) : Prop :=
  match x, y with
  | Ret a, Ret b => a = b
  | Raise _, Raise _ => True
  | _, _ => False
  end.

(** * More scenarios *)

Module Faults.

(** A filesystem on which probing the existence of one path fails, as it
    does with EACCES on a directory that may not be searched. *)
Definition deny (fs : FileSystem) (denied : list string) : FileSystem := {|
  fs_exists p :=
    if bool_decide (p = denied) then Raise (OSError "[Errno 13] Permission denied")
    else fs_exists fs p;
  fs_is_dir := fs_is_dir fs;
  fs_is_file := fs_is_file fs;
  fs_glob_py := fs_glob_py fs;
|}.

(** [Scenarios.monorepo] with monorepo/packages unreadable. *)
Definition monorepo_denied : FileSystem :=
  deny (TreeFS.to_fs Scenarios.monorepo) ["monorepo"; "packages"].

(** project/main.py, project/src/app.py *)
Definition layout_project : TreeFS.entries :=
  [ (["project"], TreeFS.Dir); (["project"; "main.py"], TreeFS.File);
    (["project"; "src"], TreeFS.Dir);
    (["project"; "src"; "app.py"], TreeFS.File) ].

(** [layout_project] where probing project/src/pkg/src fails. *)
Definition layout_denied : FileSystem :=
  deny (TreeFS.to_fs layout_project) ["project"; "src"; "pkg"; "src"].

End Faults.

(** A frame that the stack walk passes over: a notebook-kernel temporary
    file, or a file that resolves into the library or into the standard
    library or installed packages. *)
Definition skipped_frame (h : Host) (filename : string) : Prop :=
  str_contains "ipykernel_" filename = true ∨
  ∃ frame_file,
    resolve h filename = Ret frame_file ∧
    (_LIBRARY_ROOT h `prefix_of` frame_file ∨
     _is_stdlib_or_site_packages h frame_file = true).

(** A host for the examples: paths are written in ASCII, a script
    /work/app/run.py is started from /work, it calls into the library
    installed under /opt/lib/flashboot_core, and git answers with the
    top-level /work followed by a newline. *)
Module DemoHost.

Definition is_space (c : Ascii.ascii) : bool :=
  bool_decide (Ascii.nat_of_ascii c ∈ [9; 10; 11; 12; 13; 32]).

Fixpoint lstrip (s : string) : string :=
  match s with
  | String c rest => if is_space c then lstrip rest else s
  | EmptyString => EmptyString
  end.

Definition strip (s : string) : string :=
  String.rev (lstrip (String.rev (lstrip s))).

(** Splitting an absolute path at its slashes. *)
Fixpoint split_path_go (s : string) (component : string) : list string :=
  match s with
  | EmptyString =>
      if bool_decide (component = EmptyString) then [] else [String.rev component]
  | String c rest =>
      if bool_decide (Ascii.nat_of_ascii c = 47) then
        if bool_decide (component = EmptyString) then split_path_go rest EmptyString
        else String.rev component :: split_path_go rest EmptyString
      else split_path_go rest (String c component)
  end.
Definition split_path (s : string) : list string := split_path_go s EmptyString.

Definition host (git_stdout : exc string) : Host := {|
  inspect_stack :=
    Ret [ "/opt/lib/flashboot_core/utils/project_utils.py";
          "/opt/lib/flashboot_core/env/environment.py";
          "/tmp/ipykernel_4242/cell.py";
          "/usr/lib/python3.11/site-packages/runner/main.py";
          "/work/app/run.py";
          "/work/launch.py" ];
  resolve text := Ret (split_path text);
  sys_argv := ["/work/app/run.py"; "--verbose"];
  cwd := Ret ["work"];
  _LIBRARY_ROOT := ["opt"; "lib"; "flashboot_core"];
  _is_stdlib_or_site_packages p := bool_decide ("site-packages" ∈ p);
  subprocess_run cmd dir :=
    if bool_decide (cmd = Vcs.git_command) then git_stdout
    else Raise (FileNotFoundError "[Errno 2] No such file or directory");
  str_strip := strip;
  Path_of_str := split_path;
|}.

(** /work/.git/, /work/setup.py, /work/app/run.py *)
Definition work_tree : TreeFS.entries :=
  [ (["work"], TreeFS.Dir); (["work"; ".git"], TreeFS.Dir);
    (["work"; "setup.py"], TreeFS.File);
    (["work"; "app"], TreeFS.Dir); (["work"; "app"; "run.py"], TreeFS.File) ].

Definition newline : string := String (Ascii.ascii_of_nat 10) EmptyString.
Definition in_repo : Host := host (Ret (String.append "/work" newline)).
Definition no_git : Host :=
  host (Raise (FileNotFoundError "[Errno 2] No such file or directory: 'git'")).

End DemoHost.

(** * The bean registry (flashboot_core/context/app_context.py) *)

Module AppContext.

(** A call returns, or raises [ValueError] with a message. *)
Inductive result (A : Type) : Type :=
  | Return (a : A)
  | ValueError (msg : string).
Arguments Return {A} a.
Arguments ValueError {A} msg.

Section beans.
Context {Bean : Type}.

(** [ApplicationContext.__init__]: an empty [_bean_registry]. *)
Definition new_registry : gmap string Bean := ∅.

Definition quoted (name : string) : string :=
  String.append "'" (String.append name "'").

Definition register_bean (registry : gmap string Bean) (name : string)
    (instance : Bean) : result () * gmap string Bean :=
  match registry !! name with
  | Some _ =>
      (ValueError (String.append "Bean with name "
                     (String.append (quoted name) " already registered.")),
       registry)
  | None => (Return (), <[name := instance]> registry)
  end.

Definition get_bean (registry : gmap string Bean) (name : string) : result Bean :=
  match registry !! name with
  | None =>
      ValueError (String.append "Bean with name "
                    (String.append (quoted name) " not found."))
  | Some instance => Return instance
  end.

End beans.
End AppContext.

(** * Properties *)

(** ** Paths *)

Section path_facts.
Implicit Types p d : list string.

Lemma parent_snoc p x : parent (p ++ [x]) = p.
Proof.
  induction p as [|y p IH]; [done|].
  simpl. rewrite IH. by destruct p.
Qed.

Lemma parent_length p : length (parent p) = pred (length p).
Proof.
  destruct p as [|x p] using rev_ind; [done|].
  rewrite parent_snoc, length_app. simpl. lia.
Qed.

Lemma parent_fixed p : p = parent p ↔ p = root.
Proof.
  split; [|by intros ->].
  intros Hp. apply (f_equal length) in Hp. rewrite parent_length in Hp.
  destruct p; [done|simpl in Hp; lia].
Qed.

Lemma parent_shorter p : p ≠ root → length (parent p) < length p.
Proof. rewrite parent_length. destruct p; [done|simpl; lia]. Qed.

Lemma parent_prefix p : parent p `prefix_of` p.
Proof.
  destruct p as [|x p] using rev_ind; [done|].
  rewrite parent_snoc. by apply prefix_app_r.
Qed.

(** On ancestors, [distance] counts the [.parent] steps. *)
Lemma iter_parent_distance p d :
  d `prefix_of` p → Nat.iter (distance p d) parent p = d.
Proof.
  intros [k ->]. unfold distance. rewrite length_app.
  replace (length d + length k - length d) with (length k) by lia.
  induction k as [|x k IH] using rev_ind.
  - by rewrite app_nil_r.
  - rewrite length_app, Nat.add_1_r.
    rewrite Nat.iter_succ_r, app_assoc, parent_snoc. apply IH.
Qed.

Lemma prefix_parent_cases p d : d `prefix_of` p → d = p ∨ d `prefix_of` parent p.
Proof.
  intros [k ->]. destruct k as [|x k] using rev_ind.
  - left. by rewrite app_nil_r.
  - right. rewrite app_assoc, parent_snoc. by apply prefix_app_r.
Qed.

(** [ancestors] lists every non-root ancestor. *)
Lemma ancestors_from_elem n p d :
  length p ≤ n → d ≠ root → d `prefix_of` p → d ∈ ancestors_from n p.
Proof.
  revert p. induction n as [|n IH]; intros p Hn Hd Hpre.
  - destruct p; [|simpl in Hn; lia]. by apply prefix_nil_inv in Hpre.
  - simpl. case_bool_decide as Hp.
    { subst p. by apply prefix_nil_inv in Hpre. }
    apply elem_of_cons.
    destruct (prefix_parent_cases _ _ Hpre) as [->|Hpre']; [by left|right].
    apply IH; [|done..]. rewrite parent_length. lia.
Qed.

Lemma ancestors_elem p d : d ≠ root → d `prefix_of` p → d ∈ ancestors p.
Proof. by apply ancestors_from_elem. Qed.

End path_facts.

(** ** Trees *)

Section tree_facts.
Import TreeFS.

Lemma find_entry_elem (es : entries) p k : find_entry es p = Some k → (p, k) ∈ es.
Proof.
  induction es as [|[q k'] es IH]; [done|].
  simpl. case_bool_decide as Hq.
  - intros [= ->]. subst q. by left.
  - intros Hfind. right. by apply IH.
Qed.

(** In a well-formed tree the parent of a regular file is not a file. *)
Lemma tree_file_parent (es : entries) sp :
  well_formed es →
  fs_is_file (to_fs es) sp = Ret true →
  fs_is_file (to_fs es) (parent sp) = Ret false.
Proof.
  intros [_ Hwf] Hfile. simpl in *.
  injection Hfile as Hfile. apply bool_decide_eq_true in Hfile.
  unfold lookup in Hfile at 1. case_bool_decide; [done|].
  apply find_entry_elem in Hfile.
  rewrite Forall_forall in Hwf. destruct (Hwf _ Hfile) as [_ Hdir].
  simpl in Hdir. f_equal. apply bool_decide_eq_false. by rewrite Hdir.
Qed.

End tree_facts.

(** ** Python's dict and [max] *)

Section dict_facts.
Import MarkersSpec.

Lemma dict_set_fresh (d : PyDict.t) k v :
  k ∉ d.*1 → PyDict.set d k v = d ++ [(k, v)].
Proof.
  induction d as [|[k' v'] d IH]; [done|].
  rewrite fmap_cons, not_elem_of_cons. simpl. intros [Hne Hnotin].
  rewrite bool_decide_eq_false_2 by done. by rewrite IH.
Qed.

Lemma max_by_count_scan seen best rest :
  first_max seen best →
  first_max (seen ++ rest) (PyDict.max_by_count best rest).
Proof.
  revert seen best. induction rest as [|x rest IH]; intros seen best Hbest.
  { by rewrite app_nil_r. }
  simpl. rewrite cons_middle, (assoc_L (++)). apply IH.
  destruct Hbest as (before & after & -> & Hlt & Hle).
  case_bool_decide as Hx.
  - exists ((before ++ best :: after) ++ []), []. split_and!.
    + by rewrite app_nil_r.
    + rewrite app_nil_r. apply Forall_app. split.
      * eapply Forall_impl; [done|]. simpl. lia.
      * constructor; [done|]. eapply Forall_impl; [done|]. simpl. lia.
    + constructor.
  - exists before, (after ++ [x]). split_and!.
    + by rewrite <-(assoc_L (++)).
    + done.
    + apply Forall_app. split; [done|]. constructor; [lia|constructor].
Qed.

Lemma max_by_count_first_max first rest :
  first_max (first :: rest) (PyDict.max_by_count first rest).
Proof.
  apply (max_by_count_scan [first]). exists [], []. by repeat constructor.
Qed.

Lemma select_first_max cands :
  cands ≠ [] → ∃ m, Markers.select cands = Some m.1 ∧ first_max cands m.
Proof.
  destruct cands as [|first rest]; [done|]. intros _. simpl.
  eauto using max_by_count_first_max.
Qed.

Lemma select_Some cands d :
  Markers.select cands = Some d → ∃ c, first_max cands (d, c).
Proof.
  destruct cands as [|first rest]; [done|]. simpl. intros [= <-].
  exists (PyDict.max_by_count first rest).2.
  rewrite <-surjective_pairing. apply max_by_count_first_max.
Qed.

Lemma first_max_elem cands m : first_max cands m → m ∈ cands.
Proof. intros (before & after & -> & _). set_solver. Qed.

End dict_facts.

(** Arithmetic on the hop bound. *)
Ltac depth_lia :=
  unfold _MAX_TRAVERSAL_DEPTH in *;
  cbn [Markers.init Markers.depth Markers.current
       Structure.depth Structure.current] in *;
  lia.

(** ** The marker loop *)

Section markers_loop.
Import Markers MarkersSpec.
Context (fs : FileSystem) (markers : list string).

Lemma markers_guard_true st :
  guard st = true ↔ current st ≠ root ∧ depth st < _MAX_TRAVERSAL_DEPTH.
Proof.
  unfold guard. rewrite andb_true_iff, !bool_decide_eq_true.
  by rewrite parent_fixed.
Qed.

Lemma markers_guard_root depth0 cands :
  guard {| current := root; depth := depth0; candidates := cands |} = false.
Proof. apply not_true_iff_false. rewrite markers_guard_true. simpl. tauto. Qed.

Lemma markers_body_ret st st' :
  body fs markers st = Ret st' →
  current st' = parent (current st) ∧ depth st' = depth st ∧
  recorded fs markers st st'.
Proof.
  unfold body, mbind, exc_bind, mret, exc_ret.
  destruct (fs_exists fs (current st)) as [[]|] eqn:Hex; [| |done].
  - destruct (fs_is_dir fs (current st)) as [[]|] eqn:Hdir; simpl; [| |done].
    + case_bool_decide as Hname.
      { intros [= <-]. eauto using skipped. }
      destruct (marker_count fs markers (current st)) as [c|] eqn:Hc; [|done].
      intros [= <-]. simpl. split_and!; [done..|].
      case_bool_decide; [|by apply skipped].
      by eapply scored.
    + intros [= <-]. eauto using skipped.
  - simpl. intros [= <-]. eauto using skipped.
Qed.

(** A rule for the loop: a property kept by [depth += 1] and by every run of
    the body holds when the loop is left. *)
Lemma markers_loop_invariant (I : state → Prop) :
  (∀ st, I st → guard st = true → I (incr_depth st)) →
  (∀ st st', I (incr_depth st) → guard st = true →
             body fs markers (incr_depth st) = Ret st' → I st') →
  ∀ fuel st st', I st → loop fs markers fuel st = Some st' → I st'.
Proof.
  intros Hincr Hbody. induction fuel as [|fuel IH]; intros st st' HI; [done|].
  simpl. destruct (guard st) eqn:Hg; [|by intros [= <-]].
  destruct (body fs markers (incr_depth st)) as [st1|e] eqn:Hb.
  - apply IH. eauto.
  - intros [= <-]. eauto.
Qed.

Lemma markers_loop_terminates fuel st :
  _MAX_TRAVERSAL_DEPTH - depth st < fuel ∨ length (current st) < fuel →
  is_Some (loop fs markers fuel st).
Proof.
  revert st. induction fuel as [|fuel IH]; intros st Hfuel; [lia|].
  simpl. destruct (guard st) eqn:Hg; [|by eexists].
  apply markers_guard_true in Hg as [Hroot Hdepth].
  destruct (body fs markers (incr_depth st)) as [st1|e] eqn:Hb; [|by eexists].
  apply markers_body_ret in Hb as (Hcur & Hd & _). simpl in *.
  apply IH. rewrite Hcur, Hd.
  apply parent_shorter in Hroot.
  unfold _MAX_TRAVERSAL_DEPTH in *. lia.
Qed.

Lemma markers_loop_fuel_mono fuel fuel' st st' :
  loop fs markers fuel st = Some st' → fuel ≤ fuel' →
  loop fs markers fuel' st = Some st'.
Proof.
  revert fuel' st. induction fuel as [|fuel IH]; intros fuel' st; [done|].
  intros Hloop Hle. destruct fuel' as [|fuel']; [lia|].
  simpl in *. destruct (guard st); [|done].
  destruct (body fs markers (incr_depth st)); [|done].
  apply IH; [done|lia].
Qed.

Lemma markers_loop_agree fuel fuel' st st1 st2 :
  loop fs markers fuel st = Some st1 →
  loop fs markers fuel' st = Some st2 → st1 = st2.
Proof.
  intros H1 H2.
  apply (markers_loop_fuel_mono _ (fuel `max` fuel')) in H1; [|lia].
  apply (markers_loop_fuel_mono _ (fuel `max` fuel')) in H2; [|lia].
  congruence.
Qed.

(** The body runs at most [_MAX_TRAVERSAL_DEPTH - depth] times, and at most
    once per component of [current]. *)
Lemma markers_visited_bound fuel st :
  length (visited fs markers fuel st) ≤ _MAX_TRAVERSAL_DEPTH - depth st ∧
  length (visited fs markers fuel st) ≤ length (current st).
Proof.
  revert st. induction fuel as [|fuel IH]; intros st; simpl; [lia|].
  destruct (guard st) eqn:Hg; simpl; [|lia].
  apply markers_guard_true in Hg as [Hroot Hdepth].
  apply parent_shorter in Hroot.
  destruct (body fs markers (incr_depth st)) as [st1|e] eqn:Hb; simpl; [|lia].
  apply markers_body_ret in Hb as (Hcur & Hd & _). simpl in *.
  specialize (IH st1). rewrite Hcur, Hd in IH. lia.
Qed.

(** The number of iterations is the increase of [depth]. *)
Lemma markers_visited_length fuel st st' :
  loop fs markers fuel st = Some st' →
  depth st + length (visited fs markers fuel st) = depth st'.
Proof.
  revert st. induction fuel as [|fuel IH]; intros st; [done|].
  simpl. destruct (guard st); [|intros [= <-]; simpl; lia].
  destruct (body fs markers (incr_depth st)) as [st1|e] eqn:Hb.
  - intros Hloop. apply IH in Hloop.
    apply markers_body_ret in Hb as (_ & Hd & _). simpl in *. lia.
  - intros [= <-]. simpl. lia.
Qed.

Lemma markers_visited_not_root fuel st : root ∉ visited fs markers fuel st.
Proof.
  revert st. induction fuel as [|fuel IH]; intros st; simpl; [apply not_elem_of_nil|].
  destruct (guard st) eqn:Hg; [|apply not_elem_of_nil].
  apply markers_guard_true in Hg as [Hroot _].
  destruct (body fs markers (incr_depth st)).
  - apply not_elem_of_cons. split; [done|apply IH].
  - apply not_elem_of_cons. split; [done|apply not_elem_of_nil].
Qed.

(** *** What the loop records *)

Lemma markers_inv_init start : inv fs markers start (init start).
Proof. unfold inv, nearest_first. simpl. split_and!; [done|by constructor..]. Qed.

Lemma markers_inv_body start st st' :
  inv fs markers start (incr_depth st) → guard st = true →
  body fs markers (incr_depth st) = Ret st' → inv fs markers start st'.
Proof.
  intros (Hpre & Hok & Hsort & Hlen) Hg Hb. simpl in *.
  apply markers_guard_true in Hg as [Hroot _].
  apply markers_body_ret in Hb as (Hcur & _ & Hrec). simpl in *.
  pose proof (parent_shorter _ Hroot) as Hshorter.
  assert (parent (current st) `prefix_of` start) as Hpre'.
  { etrans; [apply parent_prefix|done]. }
  unfold inv. rewrite Hcur.
  destruct Hrec as [->|c Hex Hdir Hname Hc Hpos ->]; simpl in *.
  - split_and!; [done..|]. eapply Forall_impl; [done|]. simpl. lia.
  - rewrite dict_set_fresh; last first.
    { intros (x & Hx & Hin)%list_elem_of_fmap.
      rewrite Forall_forall in Hlen. apply Hlen in Hin.
      simpl in Hin. rewrite Hx in Hin. by apply Nat.lt_irrefl in Hin. }
    split_and!; [done|..].
    + apply Forall_app. split; [done|]. by repeat constructor.
    + apply StronglySorted_app. split_and!; [|done|by repeat constructor].
      intros x1 x2 Hx1 ->%list_elem_of_singleton. simpl.
      rewrite Forall_forall in Hlen. by apply Hlen.
    + apply Forall_app. split.
      * eapply Forall_impl; [done|]. simpl. lia.
      * by repeat constructor.
Qed.

Lemma markers_loop_inv start fuel st' :
  loop fs markers fuel (init start) = Some st' → inv fs markers start st'.
Proof.
  apply (markers_loop_invariant (inv fs markers start));
    [done|apply markers_inv_body|apply markers_inv_init].
Qed.

End markers_loop.

(** ** [_find_by_markers] *)

Section find_by_markers.
Import Markers MarkersSpec.
Context (fs : FileSystem).

Lemma find_by_markers_fuel_enough self markers fuel :
  _MAX_TRAVERSAL_DEPTH < fuel →
  find_fuel fuel fs self markers = Some (_find_by_markers fs self markers).
Proof.
  intros Hfuel. unfold _find_by_markers, find_fuel.
  destruct (start_path self) as [sp|]; [|done].
  destruct (start_dir fs sp) as [start|e]; [|done].
  destruct (markers_loop_terminates fs (effective_markers markers) fuel (init start))
    as [st Hst]; [left; depth_lia|].
  destruct (markers_loop_terminates fs (effective_markers markers)
              (S _MAX_TRAVERSAL_DEPTH) (init start))
    as [st' Hst']; [left; depth_lia|].
  rewrite Hst, Hst'. cbn [mbind option_bind default].
  by rewrite (markers_loop_agree _ _ _ _ _ _ _ Hst Hst').
Qed.

Lemma find_by_markers_select self markers sp start fuel st :
  start_path self = Some sp →
  start_dir fs sp = Ret start →
  loop fs (effective_markers markers) fuel (init start) = Some st →
  _find_by_markers fs self markers = Ret (select (candidates st)).
Proof.
  intros Hsp Hstart Hloop.
  pose proof (find_by_markers_fuel_enough self markers (S _MAX_TRAVERSAL_DEPTH)) as Hf.
  unfold find_fuel in Hf. rewrite Hsp, Hstart in Hf.
  destruct (markers_loop_terminates fs (effective_markers markers)
              (S _MAX_TRAVERSAL_DEPTH) (init start))
    as [st' Hst']; [left; depth_lia|].
  rewrite Hst' in Hf. cbn [mbind option_bind] in Hf.
  rewrite (markers_loop_agree _ _ _ _ _ _ _ Hloop Hst').
  symmetry. apply (inj Some). apply Hf. lia.
Qed.

(** Whatever is returned was recorded by the loop as a scored ancestor of
    the start directory, and it is the first maximum of the dict. *)
Lemma find_by_markers_Some self markers d :
  _find_by_markers fs self markers = Ret (Some d) →
  ∃ sp start st c,
    start_path self = Some sp ∧ start_dir fs sp = Ret start ∧
    loop fs (effective_markers markers) (S _MAX_TRAVERSAL_DEPTH) (init start)
      = Some st ∧
    first_max (candidates st) (d, c) ∧
    scored_ancestor fs (effective_markers markers) start (d, c).
Proof.
  intros Hfind.
  destruct (start_path self) as [sp|] eqn:Hsp; last first.
  { unfold _find_by_markers, find_fuel in Hfind. by rewrite Hsp in Hfind. }
  destruct (start_dir fs sp) as [start|e] eqn:Hstart; last first.
  { unfold _find_by_markers, find_fuel in Hfind. by rewrite Hsp, Hstart in Hfind. }
  destruct (markers_loop_terminates fs (effective_markers markers)
              (S _MAX_TRAVERSAL_DEPTH) (init start))
    as [st Hst]; [left; depth_lia|].
  rewrite (find_by_markers_select _ _ _ _ _ _ Hsp Hstart Hst) in Hfind.
  injection Hfind as Hsel. apply select_Some in Hsel as [c Hmax].
  exists sp, start, st, c. split_and!; [done..|].
  apply markers_loop_inv in Hst as (_ & Hok & _).
  rewrite Forall_forall in Hok. by apply Hok, first_max_elem.
Qed.

End find_by_markers.

(** ** The structure loop *)

Section structure_loop.
Import Structure.
Context (fs : FileSystem).

Lemma structure_guard_true st :
  guard st = true ↔ current st ≠ root ∧ depth st < _MAX_TRAVERSAL_DEPTH.
Proof.
  unfold guard. rewrite andb_true_iff, !bool_decide_eq_true.
  by rewrite parent_fixed.
Qed.

Lemma structure_loop_terminates fuel st :
  _MAX_TRAVERSAL_DEPTH - depth st < fuel ∨ length (current st) < fuel →
  is_Some (loop fs fuel st).
Proof.
  revert st. induction fuel as [|fuel IH]; intros st Hfuel; [lia|].
  simpl. destruct (guard st) eqn:Hg; [|by eexists].
  apply structure_guard_true in Hg as [Hroot Hdepth].
  destruct (qualifies fs (current st)) as [[]|e]; [by eexists| |by eexists].
  apply IH. simpl. apply parent_shorter in Hroot. depth_lia.
Qed.

Lemma structure_loop_fuel_mono fuel fuel' st r :
  loop fs fuel st = Some r → fuel ≤ fuel' → loop fs fuel' st = Some r.
Proof.
  revert fuel' st. induction fuel as [|fuel IH]; intros fuel' st; [done|].
  intros Hloop Hle. destruct fuel' as [|fuel']; [lia|].
  simpl in *. destruct (guard st); [|done].
  destruct (qualifies fs (current st)) as [[]|e]; [done| |done].
  apply IH; [done|lia].
Qed.

(** A returned directory is a non-root ancestor of the start that passed
    the test. *)
Lemma structure_loop_Some fuel st d :
  loop fs fuel st = Some (Ret (Some d)) →
  d ≠ root ∧ d `prefix_of` current st ∧ qualifies fs d = Ret true.
Proof.
  revert st. induction fuel as [|fuel IH]; intros st; [done|].
  simpl. destruct (guard st) eqn:Hg; [|done].
  apply structure_guard_true in Hg as [Hroot _].
  destruct (qualifies fs (current st)) as [[]|e] eqn:Hq; [| |done].
  - by intros [= <-].
  - intros (? & Hpre & ?)%IH. simpl in Hpre. split_and!; [done| |done].
    etrans; [done|apply parent_prefix].
Qed.

(** Where no non-root ancestor passes the test, nothing is found. *)
Lemma structure_loop_none fuel st r :
  Forall (λ d, qualifies fs d = Ret false) (ancestors (current st)) →
  loop fs fuel st = Some r → r = Ret None.
Proof.
  rewrite Forall_forall. revert st. induction fuel as [|fuel IH]; intros st Hq; [done|].
  simpl. destruct (guard st) eqn:Hg; [|by intros [= <-]].
  apply structure_guard_true in Hg as [Hroot _].
  rewrite (Hq (current st)) by by apply ancestors_elem.
  apply IH. simpl. intros d Hd. apply Hq.
  unfold ancestors in *. destruct (current st) as [|x p] eqn:Hcur; [done|].
  rewrite <-Hcur in *. replace (length (current st)) with (S (length (parent (current st)))).
  - simpl. rewrite bool_decide_eq_false_2 by done. by apply elem_of_cons; right.
  - rewrite parent_length, Hcur. done.
Qed.

(** A start path that fails the test, as a regular file does, costs the
    walk one of its iterations. *)
Lemma structure_loop_start_fails fuel sp :
  sp ≠ root → qualifies fs sp = Ret false →
  loop fs (S fuel) {| current := sp; depth := 0 |}
  = loop fs fuel {| current := parent sp; depth := 1 |}.
Proof.
  intros Hroot Hq. cbn [loop].
  rewrite (proj2 (structure_guard_true _)) by (split; [done|depth_lia]).
  cbn [current depth]. by rewrite Hq.
Qed.

Lemma structure_visited_bound fuel st :
  length (visited fs fuel st) ≤ _MAX_TRAVERSAL_DEPTH - depth st ∧
  length (visited fs fuel st) ≤ length (current st).
Proof.
  revert st. induction fuel as [|fuel IH]; intros st; simpl; [lia|].
  destruct (guard st) eqn:Hg; simpl; [|lia].
  apply structure_guard_true in Hg as [Hroot Hdepth].
  apply parent_shorter in Hroot.
  destruct (qualifies fs (current st)) as [[]|e]; simpl; [lia| |lia].
  match goal with |- context [visited fs fuel ?st1] => specialize (IH st1) end.
  cbn [current depth] in IH. unfold _MAX_TRAVERSAL_DEPTH in *. lia.
Qed.

Lemma structure_visited_not_root fuel st : root ∉ visited fs fuel st.
Proof.
  revert st. induction fuel as [|fuel IH]; intros st; simpl; [apply not_elem_of_nil|].
  destruct (guard st) eqn:Hg; [|apply not_elem_of_nil].
  apply structure_guard_true in Hg as [Hroot _].
  apply not_elem_of_cons. split; [done|].
  destruct (qualifies fs (current st)) as [[]|e];
    [apply not_elem_of_nil|apply IH|apply not_elem_of_nil].
Qed.

Lemma find_by_structure_fuel_enough self fuel :
  _MAX_TRAVERSAL_DEPTH < fuel →
  find_fuel fuel fs self = Some (_find_by_structure fs self).
Proof.
  intros Hfuel. unfold _find_by_structure, find_fuel.
  destruct (start_path self) as [sp|]; [|done].
  destruct (structure_loop_terminates (S _MAX_TRAVERSAL_DEPTH)
              {| current := sp; depth := 0 |}) as [r Hr]; [left; depth_lia|].
  rewrite Hr. cbn [default].
  apply (structure_loop_fuel_mono _ fuel) in Hr as Hr'; [|lia].
  exact Hr'.
Qed.

Lemma find_by_structure_Some self d :
  _find_by_structure fs self = Ret (Some d) →
  ∃ sp, start_path self = Some sp ∧ d ≠ root ∧ d `prefix_of` sp ∧
        qualifies fs d = Ret true.
Proof.
  intros Hfind.
  pose proof (find_by_structure_fuel_enough self (S _MAX_TRAVERSAL_DEPTH)) as Hf.
  specialize (Hf ltac:(lia)).
  rewrite Hfind in Hf. unfold find_fuel in Hf.
  destruct (start_path self) as [sp|]; [|done].
  exists sp. split; [done|].
  by apply (structure_loop_Some (S _MAX_TRAVERSAL_DEPTH) {| current := sp; depth := 0 |}).
Qed.

End structure_loop.

(** ** The orchestrator *)

Section find_root_facts.
Context (ms : Methods).

Lemma method_map_known m : is_Some (method_map ms !! m) ↔ known_method m.
Proof.
  unfold method_map, known_method, default_search_methods.
  rewrite !lookup_insert_is_Some', !elem_of_cons, elem_of_nil.
  pose proof (lookup_empty_is_Some (M:=gmap string) (A:=exc (option (list string))) m).
  intuition congruence.
Qed.

Lemma yields_no_result_cases m :
  yields_no_result ms m ↔
    ¬ known_method m ∨
    (∃ e, method_map ms !! m = Some (Raise e)) ∨
    method_map ms !! m = Some (Ret None).
Proof.
  rewrite <-method_map_known. unfold yields_no_result.
  destruct (method_map ms !! m) as [[[p|]|e]|] eqn:Hm.
  - split; [done|]. intros [Hk|[[e [=]]|[=]]]. by destruct Hk.
  - naive_solver.
  - naive_solver.
  - split; [|done]. intros _. left. by intros [? [=]].
Qed.

(** A strategy without result is passed over; it is counted among the calls
    when its name is known. *)
Lemma try_methods_skip m rest :
  yields_no_result ms m →
  try_methods (method_map ms) (m :: rest)
  = ((try_methods (method_map ms) rest).1,
     filter known_method [m] ++ (try_methods (method_map ms) rest).2).
Proof.
  intros Hm. pose proof (method_map_known m) as Hk.
  unfold yields_no_result in Hm. cbn [try_methods].
  destruct (try_methods (method_map ms) rest) as [r calls] eqn:Hrest.
  destruct (method_map ms !! m) as [[[p|]|e]|]; [done|..].
  - rewrite filter_cons_True by (apply Hk; eauto). done.
  - rewrite filter_cons_True by (apply Hk; eauto). done.
  - rewrite filter_cons_False; [done|]. rewrite <-Hk. by intros [? [=]].
Qed.

Lemma try_methods_skip_all before rest :
  Forall (yields_no_result ms) before →
  try_methods (method_map ms) (before ++ rest)
  = ((try_methods (method_map ms) rest).1,
     filter known_method before ++ (try_methods (method_map ms) rest).2).
Proof.
  induction 1 as [|m before Hm _ IH]; simpl app.
  { by destruct (try_methods (method_map ms) rest). }
  rewrite try_methods_skip, IH by done. cbn [fst snd].
  by rewrite (filter_app _ [m] before), (assoc_L (++)).
Qed.

Lemma try_methods_hit m rest p :
  method_map ms !! m = Some (Ret (Some p)) →
  try_methods (method_map ms) (m :: rest) = (Some p, [m]).
Proof. intros Hm. cbn [try_methods]. by rewrite Hm. Qed.

(** What follows a strategy with a result is never looked at. *)
Lemma try_methods_cut before m after p :
  method_map ms !! m = Some (Ret (Some p)) →
  try_methods (method_map ms) (before ++ m :: after)
  = try_methods (method_map ms) (before ++ [m]).
Proof.
  intros Hm. induction before as [|m' before IH]; simpl.
  - by rewrite Hm.
  - destruct (method_map ms !! m') as [[[q|]|e]|]; [done|by rewrite IH..|done].
Qed.

Lemma try_methods_None l :
  (try_methods (method_map ms) l).1 = None ↔ Forall (yields_no_result ms) l.
Proof.
  induction l as [|m l IH].
  { split; [by constructor|done]. }
  rewrite Forall_cons, <-IH.
  destruct (decide (yields_no_result ms m)) as [Hm|Hm].
  - rewrite try_methods_skip by done. cbn [fst]. tauto.
  - unfold yields_no_result in Hm. cbn [try_methods].
    destruct (method_map ms !! m) as [[[p|]|e]|] eqn:Hlook; try (by destruct Hm).
    unfold yields_no_result. rewrite Hlook. cbn [fst]. split; [done|tauto].
Qed.

(** A result of the loop is the result of a strategy of the list. *)
Lemma try_methods_Some l p :
  (try_methods (method_map ms) l).1 = Some p →
  ∃ m, m ∈ l ∧ method_map ms !! m = Some (Ret (Some p)).
Proof.
  induction l as [|m l IH]; [done|].
  destruct (decide (yields_no_result ms m)) as [Hm|Hm].
  - rewrite try_methods_skip by done. cbn [fst].
    intros (m' & ? & ?)%IH. exists m'. split; [by right|done].
  - unfold yields_no_result in Hm. cbn [try_methods].
    destruct (method_map ms !! m) as [[[q|]|e]|] eqn:Hlook; try (by destruct Hm).
    intros [= ->]. exists m. split; [by left|done].
Qed.

Lemma find_root_cached self search_methods p :
  _cache self = Some p → find_root ms self search_methods = (Ret p, self, []).
Proof. intros Hc. unfold find_root. by rewrite Hc. Qed.

Lemma find_root_uncached self search_methods :
  _cache self = None →
  find_root ms self search_methods
  = match try_methods (method_map ms)
            (default default_search_methods search_methods) with
    | (Some result, calls) =>
        (Ret result, {| start_path := start_path self; _cache := Some result |}, calls)
    | (None, calls) => (Raise root_not_found, self, calls)
    end.
Proof. intros Hc. unfold find_root. by rewrite Hc. Qed.

(** The first strategy with a result ends the call. *)
Lemma find_root_first_success self before m after p :
  _cache self = None →
  Forall (yields_no_result ms) before →
  method_map ms !! m = Some (Ret (Some p)) →
  find_root ms self (Some (before ++ m :: after))
  = (Ret p, {| start_path := start_path self; _cache := Some p |},
     filter known_method before ++ [m]).
Proof.
  intros Hc Hbefore Hm. rewrite find_root_uncached by done.
  change (default _ (Some ?l)) with l.
  by rewrite try_methods_skip_all, (try_methods_hit _ _ _ Hm).
Qed.

End find_root_facts.

(** * The claims *)

Section claims.
Import Markers MarkersSpec TreeFS Scenarios.

(** C1. When the marker loop has recorded at least one candidate,
    [_find_by_markers] returns a recorded candidate [d] of maximal marker
    count [c].  Every recorded candidate [d'] is an ancestor of the start
    directory, reached from it by [distance start d'] parent steps; its count
    is at most [c]; a candidate of strictly lower count is not the one
    returned, however near it is; and a different candidate tied with [d] for
    the maximum is strictly farther from the start than [d]. *)
Theorem find_by_markers_selects_nearest_maximum
    (fs : FileSystem) (self : ProjectRootFinder) (markers : option (list string))
    (sp start : list string) (fuel : nat) (st : state) :
  start_path self = Some sp →
  start_dir fs sp = Ret start →
  loop fs (effective_markers markers) fuel (init start) = Some st →
  candidates st ≠ [] →
  ∃ d c,
    _find_by_markers fs self markers = Ret (Some d) ∧
    (d, c) ∈ candidates st ∧
    ∀ d' c', (d', c') ∈ candidates st →
      Nat.iter (distance start d') parent start = d' ∧
      c' ≤ c ∧
      (c' < c → d' ≠ d) ∧
      (c' = c → d' ≠ d → distance start d < distance start d').
Proof.
  intros Hsp Hstart Hloop Hne.
  destruct (select_first_max _ Hne) as ([d c] & Hsel & Hmax).
  exists d, c. split_and!.
  { rewrite (find_by_markers_select _ _ _ _ _ _ _ Hsp Hstart Hloop). by f_equal. }
  { by apply first_max_elem. }
  apply markers_loop_inv in Hloop as (_ & Hok & Hsort & _).
  rewrite Forall_forall in Hok.
  pose proof (Hok _ (first_max_elem _ _ Hmax)) as (Hdpre%prefix_length & _).
  destruct Hmax as (before & after & Hcands & Hlt & Hle).
  rewrite Forall_forall in Hlt, Hle.
  rewrite Hcands in Hsort. unfold nearest_first in Hsort.
  apply StronglySorted_app in Hsort as (Hba & _ & Hsort).
  apply StronglySorted_cons in Hsort as [Hafter _].
  rewrite Forall_forall in Hafter.
  intros d' c' Hin.
  destruct (Hok _ Hin) as (Hpre & _). simpl in Hpre, Hdpre.
  split; [by apply iter_parent_distance|].
  rewrite Hcands, elem_of_app, elem_of_cons in Hin.
  unfold distance.
  destruct Hin as [Hin|[[= -> ->]|Hin]].
  - specialize (Hlt _ Hin). specialize (Hba _ (d, c) Hin ltac:(set_solver)).
    simpl in *. split_and!; [lia| |lia].
    intros _ ->. lia.
  - split_and!; [lia|lia|done].
  - specialize (Hle _ Hin). specialize (Hafter _ Hin).
    apply prefix_length in Hpre. simpl in *. split_and!; [lia| |lia].
    intros _ ->. lia.
Qed.

Lemma find_by_markers_selects_nearest_maximum_witness :
  candidates monorepo_exit ≠ [] ∧
  ∃ d c,
    _find_by_markers (to_fs monorepo) (new_finder monorepo_start)
      (Some ["a"; "b"]) = Ret (Some d) ∧
    (d, c) ∈ candidates monorepo_exit ∧
    ∀ d' c', (d', c') ∈ candidates monorepo_exit →
      Nat.iter (distance monorepo_start d') parent monorepo_start = d' ∧
      c' ≤ c ∧
      (c' < c → d' ≠ d) ∧
      (c' = c → d' ≠ d → distance monorepo_start d < distance monorepo_start d').
Proof.
  split; [done|].
  apply (find_by_markers_selects_nearest_maximum
           (to_fs monorepo) (new_finder monorepo_start) (Some ["a"; "b"])
           monorepo_start monorepo_start 51 monorepo_exit).
  - reflexivity.
  - reflexivity.
  - vm_compute. reflexivity.
  - done.
Defined.

(** C6. [_find_by_markers] terminates: any fuel above
    [_MAX_TRAVERSAL_DEPTH] lets the model return, always with the same
    result.  From every start directory the loop is left after at most
    [_MAX_TRAVERSAL_DEPTH] = 50 iterations and at most one iteration per
    component of the start directory (it stops on reaching the root, the one
    directory equal to its parent), and its body never runs at the root. *)
Theorem find_by_markers_terminates
    (fs : FileSystem) (self : ProjectRootFinder) (markers : option (list string)) :
  (∀ fuel, _MAX_TRAVERSAL_DEPTH < fuel →
     find_fuel fuel fs self markers = Some (_find_by_markers fs self markers)) ∧
  (∀ fuel start, _MAX_TRAVERSAL_DEPTH `min` length start < fuel →
     ∃ st, loop fs (effective_markers markers) fuel (init start) = Some st ∧
           depth st = length (visited fs (effective_markers markers) fuel (init start)) ∧
           depth st ≤ 50 ∧ depth st ≤ length start) ∧
  (∀ fuel start, root ∉ visited fs (effective_markers markers) fuel (init start)) ∧
  (∀ fuel depth0 cands,
     loop fs (effective_markers markers) (S fuel)
       {| current := root; depth := depth0; candidates := cands |}
     = Some {| current := root; depth := depth0; candidates := cands |}).
Proof.
  split_and!.
  - intros fuel Hfuel. by apply find_by_markers_fuel_enough.
  - intros fuel start Hfuel.
    destruct (markers_loop_terminates fs (effective_markers markers) fuel (init start))
      as [st Hst]; [depth_lia|].
    exists st. split; [done|].
    pose proof (markers_visited_length _ _ _ _ _ Hst) as Hlen.
    pose proof (markers_visited_bound fs (effective_markers markers) fuel (init start)).
    depth_lia.
  - intros fuel start. apply markers_visited_not_root.
  - intros fuel depth0 cands. cbn [loop]. by rewrite markers_guard_root.
Qed.

Lemma find_by_markers_terminates_witness :
  _MAX_TRAVERSAL_DEPTH < 60 ∧
  find_fuel 60 (to_fs venv_project) (new_finder ["project"; ".venv"; "lib"])
    (Some ["M"])
  = Some (_find_by_markers (to_fs venv_project)
            (new_finder ["project"; ".venv"; "lib"]) (Some ["M"])).
Proof.
  split; [unfold _MAX_TRAVERSAL_DEPTH; lia|].
  apply (proj1 (find_by_markers_terminates (to_fs venv_project)
                  (new_finder ["project"; ".venv"; "lib"]) (Some ["M"]))).
  unfold _MAX_TRAVERSAL_DEPTH. lia.
Defined.

(** C7. [_find_by_markers] never returns a directory whose basename is in
    [_NON_ROOT_DIR_NAMES].  At such a directory the loop only steps to the
    parent, with the candidates unchanged, and goes on from there; so an
    ancestor of a blocked directory is still scored and returned, as in the
    project whose .venv directory itself holds the marker. *)
Theorem find_by_markers_skips_blocked_names :
  (∀ fs self markers d,
     _find_by_markers fs self markers = Ret (Some d) →
     name d ∉ _NON_ROOT_DIR_NAMES) ∧
  (∀ fs markers fuel st,
     guard st = true →
     name (current st) ∈ _NON_ROOT_DIR_NAMES →
     fs_exists fs (current st) = Ret true →
     fs_is_dir fs (current st) = Ret true →
     loop fs markers (S fuel) st
     = loop fs markers fuel
         {| current := parent (current st); depth := S (depth st);
            candidates := candidates st |}) ∧
  (name ["project"; ".venv"] ∈ _NON_ROOT_DIR_NAMES ∧
   marker_count (to_fs venv_project) ["M"] ["project"; ".venv"] = Ret 1 ∧
   _find_by_markers (to_fs venv_project) (new_finder ["project"; ".venv"])
     (Some ["M"]) = Ret (Some ["project"])).
Proof.
  split_and!.
  - intros fs self markers d Hfind.
    apply find_by_markers_Some in Hfind as (sp & start & st & c & _ & _ & _ & _ & Hok).
    by destruct Hok as (_ & _ & Hname & _).
  - intros fs markers fuel st Hg Hname Hex Hdir.
    cbn [loop]. rewrite Hg. unfold body. cbn [incr_depth current].
    rewrite Hex. cbn [mbind exc_bind]. rewrite Hdir. cbn [mbind exc_bind mret exc_ret negb].
    by rewrite bool_decide_eq_true_2.
  - by vm_compute.
  - reflexivity.
  - by vm_compute.
Qed.

Lemma find_by_markers_skips_blocked_names_witness :
  _find_by_markers (to_fs venv_project) (new_finder ["project"; ".venv"; "lib"])
    (Some ["M"]) = Ret (Some ["project"]) ∧
  name ["project"] ∉ _NON_ROOT_DIR_NAMES.
Proof.
  split; [by vm_compute|].
  apply (proj1 find_by_markers_skips_blocked_names (to_fs venv_project)
           (new_finder ["project"; ".venv"; "lib"]) (Some ["M"])).
  by vm_compute.
Defined.

(** C8. An empty marker list, like an absent one, makes [_find_by_markers]
    use [_DEFAULT_MARKERS]: the three calls are the same, while a non-empty
    list is used as given.  The empty list does not mean "no markers": with no
    markers the loop would never record a candidate, whereas the call with an
    empty list finds the project holding pyproject.toml. *)
Theorem find_by_markers_empty_means_defaults
    (fs : FileSystem) (self : ProjectRootFinder) :
  _find_by_markers fs self (Some []) = _find_by_markers fs self (Some _DEFAULT_MARKERS) ∧
  _find_by_markers fs self None = _find_by_markers fs self (Some _DEFAULT_MARKERS) ∧
  (∀ m ms, effective_markers (Some (m :: ms)) = m :: ms) ∧
  (∀ start fuel st,
     loop fs [] fuel (init start) = Some st → select (candidates st) = None) ∧
  _find_by_markers (to_fs default_project) (new_finder ["project"; "src"]) (Some [])
  = Ret (Some ["project"]).
Proof.
  split_and!; [reflexivity..| |by vm_compute].
  intros start fuel st Hloop.
  apply markers_loop_inv in Hloop as (_ & Hok & _).
  destruct (candidates st) as [|x cands]; [done|].
  apply Forall_cons in Hok as [(_ & _ & _ & _ & _ & Hcount & Hpos) _].
  exfalso. cbn [marker_count] in Hcount. injection Hcount as Hzero. lia.
Qed.

Lemma find_by_markers_empty_means_defaults_witness :
  loop (to_fs default_project) [] 51 (init ["project"; "src"])
  = Some {| current := root; depth := 2; candidates := [] |} ∧
  select [] = None.
Proof.
  assert (loop (to_fs default_project) [] 51 (init ["project"; "src"])
          = Some {| current := root; depth := 2; candidates := [] |}) as Hloop.
  { by vm_compute. }
  split; [exact Hloop|].
  pose proof (find_by_markers_empty_means_defaults (to_fs default_project)
                (new_finder ["project"; "src"])) as (_ & _ & _ & Hnone & _).
  apply (Hnone _ _ _ Hloop).
Defined.

(** C9. Neither strategy examines or returns the filesystem root: a
    returned directory is never the root, the loop bodies never run at the
    root, and when no directory below the root on the way up holds a marker
    (respectively passes the structure test) the result is "not found",
    whatever the root itself contains. *)
Theorem traversals_stop_below_root
    (fs : FileSystem) (self : ProjectRootFinder) (markers : option (list string)) :
  (∀ d, _find_by_markers fs self markers = Ret (Some d) → d ≠ root) ∧
  (∀ d, _find_by_structure fs self = Ret (Some d) → d ≠ root) ∧
  (∀ fuel start,
     root ∉ Markers.visited fs (effective_markers markers) fuel (init start)) ∧
  (∀ fuel sp,
     root ∉ Structure.visited fs fuel
              {| Structure.current := sp; Structure.depth := 0 |}) ∧
  (∀ sp start,
     start_path self = Some sp → start_dir fs sp = Ret start →
     Forall (λ d, marker_count fs (effective_markers markers) d = Ret 0)
            (ancestors start) →
     _find_by_markers fs self markers = Ret None) ∧
  (∀ sp,
     start_path self = Some sp →
     Forall (λ d, Structure.qualifies fs d = Ret false) (ancestors sp) →
     _find_by_structure fs self = Ret None).
Proof.
  split_and!.
  - intros d Hfind.
    apply find_by_markers_Some in Hfind as (sp & start & st & c & _ & _ & _ & _ & Hok).
    by destruct Hok as (_ & Hroot & _).
  - intros d Hfind. by apply find_by_structure_Some in Hfind as (sp & _ & Hroot & _).
  - intros fuel start. apply markers_visited_not_root.
  - intros fuel sp. apply structure_visited_not_root.
  - intros sp start Hsp Hstart Hall.
    destruct (_find_by_markers fs self markers) as [[d|]|e] eqn:Hfind; [|done|].
    + apply find_by_markers_Some in Hfind
        as (sp' & start' & st & c & Hsp' & Hstart' & _ & _ & Hok).
      assert (start' = start) as -> by congruence.
      destruct Hok as (Hpre & Hroot & _ & _ & _ & Hcount & Hpos). simpl in *.
      rewrite Forall_forall in Hall.
      rewrite (Hall d) in Hcount by by apply ancestors_elem.
      injection Hcount as <-. lia.
    + destruct (markers_loop_terminates fs (effective_markers markers)
                  (S _MAX_TRAVERSAL_DEPTH) (init start)) as [st Hst]; [left; depth_lia|].
      by rewrite (find_by_markers_select _ _ _ _ _ _ _ Hsp Hstart Hst) in Hfind.
  - intros sp Hsp Hall.
    pose proof (find_by_structure_fuel_enough fs self (S _MAX_TRAVERSAL_DEPTH)
                  ltac:(lia)) as Hf.
    unfold Structure.find_fuel in Hf. rewrite Hsp in Hf.
    by eapply structure_loop_none, Hf.
Qed.

Lemma traversals_stop_below_root_witness :
  marker_count (to_fs root_only) _DEFAULT_MARKERS root = Ret 1 ∧
  Structure.qualifies (to_fs root_only) root = Ret true ∧
  _find_by_markers (to_fs root_only) (new_finder ["home"; "user"]) None = Ret None ∧
  _find_by_structure (to_fs root_only) (new_finder ["home"; "user"]) = Ret None.
Proof.
  pose proof (traversals_stop_below_root (to_fs root_only)
                (new_finder ["home"; "user"]) None)
    as (_ & _ & _ & _ & Hmarkers & Hstructure).
  split_and!.
  - by vm_compute.
  - by vm_compute.
  - apply (Hmarkers ["home"; "user"] ["home"; "user"]).
    + reflexivity.
    + reflexivity.
    + repeat constructor.
  - apply (Hstructure ["home"; "user"]).
    + reflexivity.
    + repeat constructor.
Defined.

(** C2, evaluated where the code departs from it.  The start path is a
    regular file 51 components deep in a well-formed tree whose top directory
    proj/ has the source layout.  [_find_by_structure] starts at the file
    itself, spends one of its 50 iterations there and stops below proj/;
    started at the file's parent directory it reaches proj/ and returns it. *)
Theorem find_by_structure_starts_at_the_file :
  well_formed deep_project ∧
  fs_is_file (to_fs deep_project) deep_file = Ret true ∧
  fs_is_dir (to_fs deep_project) (parent deep_file) = Ret true ∧
  head (Structure.visited (to_fs deep_project) (S _MAX_TRAVERSAL_DEPTH)
          {| Structure.current := deep_file; Structure.depth := 0 |})
    = Some deep_file ∧
  _find_by_structure (to_fs deep_project) (new_finder deep_file) = Ret None ∧
  _find_by_structure (to_fs deep_project) (new_finder (parent deep_file))
    = Ret (Some ["proj"]).
Proof.
  split_and!.
  - apply (bool_decide_unpack _). by vm_compute.
  - by vm_compute.
  - by vm_compute.
  - by vm_compute.
  - by vm_compute.
  - by vm_compute.
Qed.

(** The marker strategy does start at the parent of a file: from a file
    whose parent is not itself a file, it returns what it returns from the
    parent. *)
Lemma find_by_markers_file_start
    (fs : FileSystem) (self : ProjectRootFinder) (markers : option (list string))
    (sp : list string) :
  start_path self = Some sp →
  fs_is_file fs sp = Ret true →
  fs_is_file fs (parent sp) = Ret false →
  _find_by_markers fs self markers
  = _find_by_markers fs {| start_path := Some (parent sp); _cache := _cache self |}
      markers.
Proof.
  intros Hsp Hfile Hparent.
  unfold _find_by_markers, find_fuel. rewrite Hsp. cbn [start_path].
  unfold start_dir. by rewrite Hfile, Hparent.
Qed.

(** In a well-formed tree this covers every regular file. *)
Lemma find_by_markers_file_start_tree
    (es : entries) (self : ProjectRootFinder) (markers : option (list string))
    (sp : list string) :
  well_formed es →
  start_path self = Some sp →
  fs_is_file (to_fs es) sp = Ret true →
  _find_by_markers (to_fs es) self markers
  = _find_by_markers (to_fs es)
      {| start_path := Some (parent sp); _cache := _cache self |} markers.
Proof.
  intros Hwf Hsp Hfile.
  apply (find_by_markers_file_start _ _ _ sp); [done..|].
  by apply tree_file_parent.
Qed.

(** C3. On an instance with an empty cache, [find_root] raises the
    root-not-found error exactly when every entry of the strategy list yields
    no result, that is, names an unknown strategy, a strategy that raises, or
    one that returns [None]; such an entry is passed over and the call goes on
    with the rest of the list.  No other exception leaves [find_root]: the
    caller gets a path or root-not-found. *)
Theorem find_root_raises_iff_all_fail
    (ms : Methods) (self : ProjectRootFinder) (search_methods : option (list string)) :
  _cache self = None →
  ((find_root ms self search_methods).1.1 = Raise root_not_found ↔
     Forall (yields_no_result ms)
            (default default_search_methods search_methods)) ∧
  (∀ e, (find_root ms self search_methods).1.1 = Raise e → e = root_not_found) ∧
  (∀ m, yields_no_result ms m ↔
          ¬ known_method m ∨
          (∃ e, method_map ms !! m = Some (Raise e)) ∨
          method_map ms !! m = Some (Ret None)) ∧
  (∀ m rest, yields_no_result ms m →
     (find_root ms self (Some (m :: rest))).1 = (find_root ms self (Some rest)).1).
Proof.
  intros Hc. split_and!.
  - rewrite <-try_methods_None, find_root_uncached by done.
    by destruct (try_methods _ _) as [[p|] calls].
  - intros e. rewrite find_root_uncached by done.
    destruct (try_methods _ _) as [[p|] calls]; [done|]. by intros [= <-].
  - apply yields_no_result_cases.
  - intros m rest Hm. rewrite !find_root_uncached by done.
    change (default _ (Some ?l)) with l.
    rewrite try_methods_skip by done.
    by destruct (try_methods (method_map ms) rest) as [[p|] calls].
Qed.

Lemma find_root_raises_iff_all_fail_witness :
  _cache (new_finder ["home"]) = None ∧
  Forall (yields_no_result failing_methods) default_search_methods ∧
  (find_root failing_methods (new_finder ["home"]) None).1.1 = Raise root_not_found.
Proof.
  split; [reflexivity|].
  assert (Forall (yields_no_result failing_methods) default_search_methods) as Hall.
  { repeat constructor. }
  split; [exact Hall|].
  apply (proj1 (find_root_raises_iff_all_fail failing_methods
                  (new_finder ["home"]) None eq_refl)).
  exact Hall.
Defined.

(** C4. After a call of [find_root] that returned a path, the cache holds
    that path, and every later call on the instance, in whatever environment
    and with whatever strategy list, returns the same path, invokes no
    strategy and leaves the instance as it is.  A call on an instance whose
    cache is already set writes nothing. *)
Theorem find_root_cache_is_final
    (ms : Methods) (self self' : ProjectRootFinder)
    (search_methods : option (list string)) (p : list string) (calls : list string) :
  find_root ms self search_methods = (Ret p, self', calls) →
  _cache self' = Some p ∧
  start_path self' = start_path self ∧
  (∀ ms' search_methods', find_root ms' self' search_methods' = (Ret p, self', [])) ∧
  (_cache self ≠ None → self' = self ∧ calls = []).
Proof.
  intros Hfind.
  destruct (_cache self) as [q|] eqn:Hc.
  - rewrite (find_root_cached _ _ _ _ Hc) in Hfind. injection Hfind as <- <- <-.
    split_and!; [done|done| |done].
    intros ms' sm'. by apply find_root_cached.
  - rewrite find_root_uncached in Hfind by done.
    destruct (try_methods _ _) as [[r|] calls']; [|done].
    injection Hfind as <- <- <-.
    split_and!; [done|done| |done].
    intros ms' sm'. by apply find_root_cached.
Qed.

Lemma find_root_cache_is_final_witness :
  find_root venv_methods venv_finder None
  = (Ret ["project"],
     {| start_path := start_path venv_finder; _cache := Some ["project"] |},
     ["git"; "svn"; "hg"; "markers"]) ∧
  find_root failing_methods
    {| start_path := start_path venv_finder; _cache := Some ["project"] |}
    (Some ["structure"; "git"])
  = (Ret ["project"],
     {| start_path := start_path venv_finder; _cache := Some ["project"] |}, []).
Proof.
  assert (find_root venv_methods venv_finder None
          = (Ret ["project"],
             {| start_path := start_path venv_finder; _cache := Some ["project"] |},
             ["git"; "svn"; "hg"; "markers"])) as Hfirst.
  { by vm_compute. }
  split; [exact Hfirst|].
  apply (find_root_cache_is_final _ _ _ _ _ _ Hfirst).
Defined.

(** C5. On an instance with an empty cache, once a strategy of the list
    returns a path, what follows it in the list plays no part: the call is
    the call on the list cut after that strategy.  When it is the first
    strategy with a result, the call returns its path, caches it, and has
    invoked exactly the known strategies before it and that strategy. *)
Theorem find_root_short_circuits
    (ms : Methods) (self : ProjectRootFinder)
    (before after : list string) (m : string) (p : list string) :
  _cache self = None →
  method_map ms !! m = Some (Ret (Some p)) →
  find_root ms self (Some (before ++ m :: after))
  = find_root ms self (Some (before ++ [m])) ∧
  (Forall (yields_no_result ms) before →
   find_root ms self (Some (before ++ m :: after))
   = (Ret p, {| start_path := start_path self; _cache := Some p |},
      filter known_method before ++ [m])).
Proof.
  intros Hc Hm. split; [|intros Hbefore; by apply find_root_first_success].
  rewrite !find_root_uncached by done. change (default _ (Some ?l)) with l.
  by rewrite (try_methods_cut _ _ _ _ _ Hm).
Qed.

Lemma find_root_short_circuits_witness :
  find_root venv_methods venv_finder (Some (["git"; "nonsense"] ++ "markers" :: ["structure"; "hg"]))
  = (Ret ["project"],
     {| start_path := start_path venv_finder; _cache := Some ["project"] |},
     ["git"; "markers"]).
Proof.
  apply (proj2 (find_root_short_circuits venv_methods venv_finder
                  ["git"; "nonsense"] ["structure"; "hg"] "markers" ["project"]
                  eq_refl ltac:(by vm_compute))).
  repeat constructor.
Defined.

(** C10. When [find_root] raises, the error is root-not-found, every known
    strategy of the list has been invoked, and the instance is unchanged with
    its cache unset; so a later call runs the strategy loop again, as on a
    fresh instance, and returns the path of the first strategy that then has
    one.  The cache is only ever written with the result of a strategy of the
    list. *)
Theorem find_root_failure_leaves_cache_unset
    (ms : Methods) (self self' : ProjectRootFinder)
    (search_methods : option (list string)) (e : exn) (calls : list string) :
  find_root ms self search_methods = (Raise e, self', calls) →
  e = root_not_found ∧
  self' = self ∧ _cache self' = None ∧
  calls = filter known_method (default default_search_methods search_methods) ∧
  (∀ ms' search_methods',
     find_root ms' self' search_methods'
     = find_root ms' {| start_path := start_path self; _cache := None |}
         search_methods') ∧
  (∀ ms' before m after p,
     Forall (yields_no_result ms') before →
     method_map ms' !! m = Some (Ret (Some p)) →
     find_root ms' self' (Some (before ++ m :: after))
     = (Ret p, {| start_path := start_path self; _cache := Some p |},
        filter known_method before ++ [m])) ∧
  (∀ ms0 self0 search_methods0 q,
     _cache self0 = None →
     _cache (find_root ms0 self0 search_methods0).1.2 = Some q →
     (find_root ms0 self0 search_methods0).1.1 = Ret q ∧
     ∃ m, m ∈ default default_search_methods search_methods0 ∧
          method_map ms0 !! m = Some (Ret (Some q))).
Proof.
  intros Hfind.
  destruct (_cache self) as [q|] eqn:Hc.
  { by rewrite (find_root_cached _ _ _ _ Hc) in Hfind. }
  rewrite find_root_uncached in Hfind by done.
  destruct (try_methods _ _) as [[r|] calls'] eqn:Htry; [done|].
  injection Hfind as <- <- <-.
  assert (Forall (yields_no_result ms)
            (default default_search_methods search_methods)) as Hall.
  { apply try_methods_None. by rewrite Htry. }
  split_and!; [done|done|done| | | |].
  - pose proof (try_methods_skip_all ms _ [] Hall) as Hskip.
    rewrite app_nil_r, Htry in Hskip. injection Hskip as ->.
    by rewrite app_nil_r.
  - intros ms' sm'. by destruct self; simplify_eq/=.
  - intros ms' before m after p Hbefore Hm. by apply find_root_first_success.
  - intros ms0 self0 sm0 q Hc0. rewrite find_root_uncached by done.
    destruct (try_methods (method_map ms0) _) as [[r|] calls0] eqn:Htry0;
      cbn [fst snd _cache].
    + intros [= ->]. split; [done|]. apply try_methods_Some. by rewrite Htry0.
    + by rewrite Hc0.
Qed.

Lemma find_root_failure_leaves_cache_unset_witness :
  find_root failing_methods venv_finder None
  = (Raise root_not_found, venv_finder, default_search_methods) ∧
  find_root venv_methods venv_finder (Some (["git"] ++ "markers" :: ["structure"]))
  = (Ret ["project"],
     {| start_path := start_path venv_finder; _cache := Some ["project"] |},
     ["git"; "markers"]).
Proof.
  assert (find_root failing_methods venv_finder None
          = (Raise root_not_found, venv_finder, default_search_methods)) as Hfail.
  { by vm_compute. }
  split; [exact Hfail|].
  pose proof (find_root_failure_leaves_cache_unset _ _ _ _ _ _ Hfail)
    as (_ & _ & _ & _ & _ & Hagain & _).
  apply (Hagain venv_methods ["git"] "markers" ["structure"] ["project"]).
  - repeat constructor.
  - by vm_compute.
Defined.

End claims.

(** * Further properties of the traversals *)

Section ancestors_facts.
Implicit Types p d : list string.

Lemma ancestors_root : ancestors root = [].
Proof. done. Qed.

Lemma ancestors_cons p : p ≠ root → ancestors p = p :: ancestors (parent p).
Proof.
  intros Hp. unfold ancestors. rewrite parent_length.
  destruct p as [|x p]; [done|]. cbn [length pred ancestors_from].
  by rewrite bool_decide_eq_false_2.
Qed.

Lemma ancestors_length p : length (ancestors p) = length p.
Proof.
  induction p as [|x p IH] using rev_ind; [done|].
  rewrite ancestors_cons by by destruct p.
  rewrite parent_snoc, length_app. simpl. lia.
Qed.

(** The [i]-th ancestor is [i] parent steps up. *)
Lemma ancestors_lookup p i d :
  ancestors p !! i = Some d →
  d = Nat.iter i parent p ∧ d ≠ root ∧ d `prefix_of` p ∧ distance p d = i.
Proof.
  revert i. induction p as [|x p IH] using rev_ind; intros i; [done|].
  rewrite ancestors_cons by by destruct p.
  rewrite parent_snoc. destruct i as [|i]; simpl.
  - intros [= <-]. unfold distance. split_and!; [done|by destruct p|done|lia].
  - intros (-> & Hroot & Hpre & Hdist)%IH. split_and!.
    + change (parent (Nat.iter i parent (p ++ [x])))
        with (Nat.iter (S i) parent (p ++ [x])).
      by rewrite Nat.iter_succ_r, parent_snoc.
    + done.
    + by apply prefix_app_r.
    + unfold distance in *. rewrite length_app. simpl.
      apply prefix_length in Hpre. lia.
Qed.

Lemma reach_elem start d :
  d ∈ Traversal.reach start →
  d ≠ root ∧ d `prefix_of` start ∧ distance start d < _MAX_TRAVERSAL_DEPTH.
Proof.
  unfold Traversal.reach. intros (i & Hi)%list_elem_of_lookup.
  apply lookup_take_Some in Hi as [Hi Hlt].
  apply ancestors_lookup in Hi as (_ & ? & ? & ->). done.
Qed.

End ancestors_facts.

(** ** The marker loop in closed form *)

Section markers_closed.
Import Markers MarkersSpec Traversal.
Context (fs : FileSystem) (markers : list string).

Lemma markers_body_score st :
  body fs markers st
  = match score fs markers (current st) with
    | Raise e => Raise e
    | Ret None => Ret (step_up st)
    | Ret (Some c) =>
        Ret {| current := parent (current st); depth := depth st;
               candidates := PyDict.set (candidates st) (current st) c |}
    end.
Proof.
  unfold body, score, mbind, exc_bind, mret, exc_ret.
  destruct (fs_exists fs (current st)) as [[]|]; [| |done].
  - destruct (fs_is_dir fs (current st)) as [[]|]; simpl; [| |done].
    + case_bool_decide; [done|].
      destruct (marker_count fs markers (current st)) as [c|]; [|done].
      by case_bool_decide.
    + done.
  - done.
Qed.

Lemma score_Some d c :
  score fs markers d = Ret (Some c) →
  fs_exists fs d = Ret true ∧ fs_is_dir fs d = Ret true ∧
  (name d ∉ _NON_ROOT_DIR_NAMES) ∧
  marker_count fs markers d = Ret c ∧ 0 < c.
Proof.
  unfold score, mbind, exc_bind, mret, exc_ret.
  destruct (fs_exists fs d) as [[]|]; [| |done].
  - destruct (fs_is_dir fs d) as [[]|]; simpl; [| |done].
    + case_bool_decide; [done|].
      destruct (marker_count fs markers d) as [n|]; [|done].
      case_bool_decide; [|done]. by intros [= <-].
    + done.
  - done.
Qed.

Lemma marker_count_le d c :
  marker_count fs markers d = Ret c → c ≤ length markers.
Proof.
  revert c. induction markers as [|m ms IH]; intros c; simpl.
  - intros [= <-]. lia.
  - unfold mbind, exc_bind, mret, exc_ret.
    destruct (fs_exists fs (joinpath d m)) as [found|]; [|done].
    destruct (marker_count fs ms d) as [n|]; [|done].
    intros [= <-]. specialize (IH n eq_refl). destruct found; lia.
Qed.

Lemma scan_elem dirs d c :
  (d, c) ∈ scan fs markers dirs → d ∈ dirs ∧ score fs markers d = Ret (Some c).
Proof.
  induction dirs as [|d' dirs IH]; simpl; [by intros ?%elem_of_nil|].
  destruct (score fs markers d') as [[c'|]|e] eqn:Hscore.
  - intros [[= -> ->]|Hin]%elem_of_cons.
    + split; [by left|done].
    + destruct (IH Hin). split; [by right|done].
  - intros Hin. destruct (IH Hin). split; [by right|done].
  - by intros ?%elem_of_nil.
Qed.

(** Nothing beyond a directory at which a probe raises is scored. *)
Lemma scan_stop dirs i d e :
  dirs !! i = Some d → score fs markers d = Raise e →
  scan fs markers dirs = scan fs markers (take i dirs).
Proof.
  revert i. induction dirs as [|d' dirs IH]; intros i; [done|].
  destruct i as [|i]; simpl.
  - intros [= ->] Hscore. by rewrite Hscore.
  - intros Hi Hscore. destruct (score fs markers d') as [[c'|]|e']; [|by eauto..].
    f_equal. by eauto.
Qed.

(** A scoring directory is recorded unless a probe raises before it. *)
Lemma scan_complete dirs i d c :
  dirs !! i = Some d →
  Forall (λ d', ∃ r, score fs markers d' = Ret r) (take i dirs) →
  score fs markers d = Ret (Some c) →
  (d, c) ∈ scan fs markers dirs.
Proof.
  revert i. induction dirs as [|d' dirs IH]; intros i; [done|].
  destruct i as [|i]; simpl.
  - intros [= ->] _ Hscore. rewrite Hscore. by left.
  - intros Hi [[r Hr] Hquiet]%Forall_cons Hscore. rewrite Hr.
    destruct r as [c'|]; [right|]; by eauto.
Qed.

(** The loop appends to the dict the scan of what lies within reach. *)
Lemma markers_loop_scan fuel st :
  _MAX_TRAVERSAL_DEPTH - depth st < fuel →
  Forall (λ x, length (current st) < length x.1) (candidates st) →
  ∃ st', loop fs markers fuel st = Some st' ∧
         candidates st'
         = candidates st
           ++ scan fs markers
                (take (_MAX_TRAVERSAL_DEPTH - depth st) (ancestors (current st))).
Proof.
  revert st. induction fuel as [|fuel IH]; intros st Hfuel Hfresh; [lia|].
  cbn [loop]. destruct (guard st) eqn:Hg.
  - apply markers_guard_true in Hg as [Hroot Hdepth].
    pose proof (parent_shorter _ Hroot) as Hshorter.
    rewrite (ancestors_cons _ Hroot).
    replace (_MAX_TRAVERSAL_DEPTH - depth st)
      with (S (_MAX_TRAVERSAL_DEPTH - S (depth st))) by depth_lia.
    cbn [take scan]. rewrite markers_body_score. cbn [incr_depth current depth candidates].
    destruct (score fs markers (current st)) as [[c|]|e].
    + rewrite dict_set_fresh; last first.
      { intros (x & Hx & Hin)%list_elem_of_fmap.
        rewrite Forall_forall in Hfresh. apply Hfresh in Hin.
        simpl in Hin. rewrite Hx in Hin. by apply Nat.lt_irrefl in Hin. }
      edestruct (IH {| current := parent (current st); depth := S (depth st);
                       candidates := candidates st ++ [(current st, c)] |})
        as (st' & Hloop & Hcands); [depth_lia| |].
      { simpl. apply Forall_app. split.
        - eapply Forall_impl; [done|]. simpl. lia.
        - by repeat constructor. }
      exists st'. split; [done|]. simpl in Hcands.
      by rewrite Hcands, <-(assoc_L (++)).
    + edestruct (IH (step_up (incr_depth st))) as (st' & Hloop & Hcands);
        [unfold step_up, incr_depth; depth_lia| |].
      { simpl. eapply Forall_impl; [done|]. simpl. lia. }
      exists st'. by split.
    + eexists. split; [done|]. simpl. by rewrite app_nil_r.
  - eexists. split; [done|].
    apply not_true_iff_false in Hg. rewrite markers_guard_true in Hg.
    destruct (decide (current st = root)) as [->|Hroot].
    + by rewrite ancestors_root, take_nil, app_nil_r.
    + assert (¬ depth st < _MAX_TRAVERSAL_DEPTH) by tauto.
      replace (_MAX_TRAVERSAL_DEPTH - depth st) with 0 by depth_lia.
      by rewrite take_0, app_nil_r.
Qed.

End markers_closed.

Section markers_order.
Import Markers Traversal.
Context (fs : FileSystem).

Lemma same_outcome_trans {A} (x y z : exc A) :
  same_outcome x y → same_outcome y z → same_outcome x z.
Proof. destruct x, y, z; simpl; try done. congruence. Qed.

Lemma marker_count_perm ms ms' d :
  ms ≡ₚ ms' → same_outcome (marker_count fs ms d) (marker_count fs ms' d).
Proof.
  induction 1 as [|m ms ms' _ IH|m1 m2 ms|ms1 ms2 ms3 _ IH1 _ IH2].
  - done.
  - cbn [marker_count]. unfold mbind, exc_bind, mret, exc_ret.
    destruct (fs_exists fs (joinpath d m)) as [b|]; [|done].
    destruct (marker_count fs ms d), (marker_count fs ms' d); simpl in *; by subst.
  - cbn [marker_count]. unfold mbind, exc_bind, mret, exc_ret.
    destruct (fs_exists fs (joinpath d m1)) as [b1|],
             (fs_exists fs (joinpath d m2)) as [b2|],
             (marker_count fs ms d) as [n|]; simpl; try done; lia.
  - by eapply same_outcome_trans.
Qed.

Lemma score_perm ms ms' d :
  ms ≡ₚ ms' → same_outcome (score fs ms d) (score fs ms' d).
Proof.
  intros Hperm. unfold score, mbind, exc_bind, mret, exc_ret.
  destruct (fs_exists fs d) as [[]|]; [| |done].
  - destruct (fs_is_dir fs d) as [[]|]; simpl; [| |done].
    + case_bool_decide; [done|].
      pose proof (marker_count_perm ms ms' d Hperm) as Hcount.
      destruct (marker_count fs ms d), (marker_count fs ms' d); simpl in *; by subst.
    + done.
  - done.
Qed.

Lemma scan_perm ms ms' dirs :
  ms ≡ₚ ms' → scan fs ms dirs = scan fs ms' dirs.
Proof.
  intros Hperm. induction dirs as [|d dirs IH]; [done|].
  cbn [scan]. pose proof (score_perm ms ms' d Hperm) as Hscore.
  destruct (score fs ms d) as [[c|]|], (score fs ms' d) as [[c'|]|];
    simpl in Hscore; try done.
  injection Hscore as <-. by rewrite IH.
Qed.

Lemma effective_markers_perm ms ms' :
  ms ≡ₚ ms' → effective_markers (Some ms) ≡ₚ effective_markers (Some ms').
Proof.
  intros Hperm. destruct ms as [|m ms].
  - by apply Permutation_nil_l in Hperm as ->.
  - destruct ms' as [|m' ms']; [by apply Permutation_nil_r in Hperm|done].
Qed.

End markers_order.

(** * Further properties of [_find_by_markers] *)

Section extras_markers.
Import Markers MarkersSpec Traversal TreeFS Scenarios Faults.

(** X1. [_find_by_markers] in closed form.  Once [is_file] has answered for
    the start path, the call returns, without raising, the first maximum of
    the scored directories among the nearest [_MAX_TRAVERSAL_DEPTH] non-root
    ancestors of the start directory (itself included), taken nearest first
    and cut at the first directory at which a probe raises. *)
Theorem find_by_markers_closed_form
    (fs : FileSystem) (self : ProjectRootFinder) (markers : option (list string))
    (sp start : list string) :
  start_path self = Some sp →
  start_dir fs sp = Ret start →
  _find_by_markers fs self markers
  = Ret (select (scan fs (effective_markers markers) (reach start))).
Proof.
  intros Hsp Hstart.
  destruct (markers_loop_scan fs (effective_markers markers)
              (S _MAX_TRAVERSAL_DEPTH) (init start))
    as (st & Hloop & Hcands); [depth_lia|by constructor|].
  rewrite (find_by_markers_select _ _ _ _ _ _ _ Hsp Hstart Hloop), Hcands.
  by rewrite Nat.sub_0_r.
Qed.

Lemma find_by_markers_closed_form_witness :
  _find_by_markers (to_fs monorepo) (new_finder monorepo_start) (Some ["a"; "b"])
  = Ret (select (scan (to_fs monorepo) ["a"; "b"] (reach monorepo_start))).
Proof.
  apply (find_by_markers_closed_form (to_fs monorepo) (new_finder monorepo_start)
           (Some ["a"; "b"]) monorepo_start monorepo_start).
  - reflexivity.
  - reflexivity.
Defined.

(** X2. A directory returned by [_find_by_markers] is a non-root ancestor of
    the start directory (or that directory itself), fewer than 50 parent
    steps above it; it exists, is a directory, and holds at least one and at
    most all of the markers in use. *)
Theorem find_by_markers_result_sound
    (fs : FileSystem) (self : ProjectRootFinder) (markers : option (list string))
    (d : list string) :
  _find_by_markers fs self markers = Ret (Some d) →
  ∃ sp start c,
    start_path self = Some sp ∧ start_dir fs sp = Ret start ∧
    d ≠ root ∧ d `prefix_of` start ∧ distance start d < 50 ∧
    fs_exists fs d = Ret true ∧ fs_is_dir fs d = Ret true ∧
    marker_count fs (effective_markers markers) d = Ret c ∧
    1 ≤ c ≤ length (effective_markers markers).
Proof.
  intros Hfind.
  destruct (find_by_markers_Some _ _ _ _ Hfind)
    as (sp & start & _ & _ & Hsp & Hstart & _).
  rewrite (find_by_markers_closed_form _ _ _ _ _ Hsp Hstart) in Hfind.
  injection Hfind as Hsel.
  apply select_Some in Hsel as [c Hmax%first_max_elem].
  apply scan_elem in Hmax as [Hreach Hscore].
  apply reach_elem in Hreach as (Hroot & Hpre & Hdist).
  apply score_Some in Hscore as (Hex & Hdir & _ & Hcount & Hpos).
  pose proof (marker_count_le _ _ _ _ Hcount).
  exists sp, start, c. split_and!; [done..|lia|done].
Qed.

Lemma find_by_markers_result_sound_witness :
  ∃ sp start c,
    start_path venv_finder = Some sp ∧
    start_dir (to_fs venv_project) sp = Ret start ∧
    ["project"] ≠ root ∧ ["project"] `prefix_of` start ∧
    distance start ["project"] < 50 ∧
    fs_exists (to_fs venv_project) ["project"] = Ret true ∧
    fs_is_dir (to_fs venv_project) ["project"] = Ret true ∧
    marker_count (to_fs venv_project) (effective_markers (Some ["M"])) ["project"]
      = Ret c ∧
    1 ≤ c ≤ length (effective_markers (Some ["M"])).
Proof.
  apply (find_by_markers_result_sound (to_fs venv_project) venv_finder (Some ["M"])).
  by vm_compute.
Defined.

(** X3. A probe that raises inside the traversal is not propagated and does
    not lose what was found: when testing the existence of the [i]-th
    ancestor raises, the call returns the first maximum of the directories
    scored strictly below it, and nothing above it is looked at. *)
Theorem find_by_markers_swallows_probe_errors
    (fs : FileSystem) (self : ProjectRootFinder) (markers : option (list string))
    (sp start d : list string) (i : nat) (e : exn) :
  start_path self = Some sp →
  start_dir fs sp = Ret start →
  i < _MAX_TRAVERSAL_DEPTH →
  ancestors start !! i = Some d →
  fs_exists fs d = Raise e →
  _find_by_markers fs self markers
  = Ret (select (scan fs (effective_markers markers) (take i (ancestors start)))).
Proof.
  intros Hsp Hstart Hi Hd Hraise.
  rewrite (find_by_markers_closed_form _ _ _ _ _ Hsp Hstart). unfold reach.
  rewrite (scan_stop _ _ _ i d e).
  - by rewrite take_take, Nat.min_l by lia.
  - by rewrite lookup_take_lt.
  - unfold score. by rewrite Hraise.
Qed.

Lemma find_by_markers_swallows_probe_errors_witness :
  _find_by_markers monorepo_denied (new_finder monorepo_start) (Some ["a"; "b"])
  = Ret (Some ["monorepo"; "packages"; "pkg"]).
Proof.
  apply (find_by_markers_swallows_probe_errors monorepo_denied
           (new_finder monorepo_start) (Some ["a"; "b"])
           monorepo_start monorepo_start ["monorepo"; "packages"] 2
           (OSError "[Errno 13] Permission denied")).
  - reflexivity.
  - reflexivity.
  - unfold _MAX_TRAVERSAL_DEPTH. lia.
  - reflexivity.
  - reflexivity.
Defined.

(** X4. The traversal misses nothing within reach: when the [i]-th ancestor,
    [i < 50], exists, is a directory, is not blocked and holds [c ≥ 1]
    markers, and no probe raises at the ancestors below it, then a directory
    is returned, and it holds at least [c] markers. *)
Theorem find_by_markers_finds_scoring_ancestor
    (fs : FileSystem) (self : ProjectRootFinder) (markers : option (list string))
    (sp start d : list string) (i c : nat) :
  start_path self = Some sp →
  start_dir fs sp = Ret start →
  i < _MAX_TRAVERSAL_DEPTH →
  ancestors start !! i = Some d →
  Forall (λ d', ∃ r, score fs (effective_markers markers) d' = Ret r)
         (take i (ancestors start)) →
  fs_exists fs d = Ret true →
  fs_is_dir fs d = Ret true →
  name d ∉ _NON_ROOT_DIR_NAMES →
  marker_count fs (effective_markers markers) d = Ret c →
  0 < c →
  ∃ d' c',
    _find_by_markers fs self markers = Ret (Some d') ∧
    marker_count fs (effective_markers markers) d' = Ret c' ∧
    c ≤ c'.
Proof.
  intros Hsp Hstart Hi Hd Hquiet Hex Hdir Hname Hcount Hpos.
  rewrite (find_by_markers_closed_form _ _ _ _ _ Hsp Hstart).
  assert ((d, c) ∈ scan fs (effective_markers markers) (reach start)) as Hin.
  { apply (scan_complete _ _ _ i).
    - unfold reach. by rewrite lookup_take_lt.
    - unfold reach. by rewrite take_take, Nat.min_l by lia.
    - unfold score, mbind, exc_bind, mret, exc_ret. rewrite Hex, Hdir. simpl.
      rewrite bool_decide_eq_false_2 by done. rewrite Hcount.
      by rewrite bool_decide_eq_true_2. }
  destruct (select_first_max (scan fs (effective_markers markers) (reach start)))
    as ([d' c'] & Hsel & Hmax).
  { intros Hnil. rewrite Hnil in Hin. by apply elem_of_nil in Hin. }
  exists d', c'. split_and!.
  - by rewrite Hsel.
  - apply first_max_elem, scan_elem in Hmax as [_ Hscore].
    by apply score_Some in Hscore as (_ & _ & _ & ? & _).
  - destruct Hmax as (before & after & Heq & Hlt & Hle).
    rewrite Heq, elem_of_app, elem_of_cons in Hin.
    rewrite Forall_forall in Hlt, Hle.
    destruct Hin as [Hin|[[= -> ->]|Hin]].
    + specialize (Hlt _ Hin). simpl in Hlt. lia.
    + done.
    + specialize (Hle _ Hin). done.
Qed.

Lemma find_by_markers_finds_scoring_ancestor_witness :
  ∃ d' c',
    _find_by_markers (to_fs monorepo) (new_finder monorepo_start) (Some ["a"; "b"])
      = Ret (Some d') ∧
    marker_count (to_fs monorepo) (effective_markers (Some ["a"; "b"])) d' = Ret c' ∧
    2 ≤ c'.
Proof.
  apply (find_by_markers_finds_scoring_ancestor (to_fs monorepo)
           (new_finder monorepo_start) (Some ["a"; "b"])
           monorepo_start monorepo_start ["monorepo"] 3 2).
  - reflexivity.
  - reflexivity.
  - unfold _MAX_TRAVERSAL_DEPTH. lia.
  - reflexivity.
  - repeat constructor; by eexists.
  - reflexivity.
  - reflexivity.
  - by vm_compute.
  - reflexivity.
  - lia.
Defined.

(** X5. The order in which the markers are listed does not matter: two
    marker lists that are permutations of each other give the same result
    on every filesystem, raising probes included. *)
Theorem find_by_markers_marker_order_irrelevant
    (fs : FileSystem) (self : ProjectRootFinder) (ms ms' : list string) :
  ms ≡ₚ ms' →
  _find_by_markers fs self (Some ms) = _find_by_markers fs self (Some ms').
Proof.
  intros Hperm.
  destruct (start_path self) as [sp|] eqn:Hsp; last first.
  { unfold _find_by_markers, find_fuel. by rewrite Hsp. }
  destruct (start_dir fs sp) as [start|e] eqn:Hstart; last first.
  { unfold _find_by_markers, find_fuel. by rewrite Hsp, Hstart. }
  rewrite !(find_by_markers_closed_form _ _ _ _ _ Hsp Hstart).
  by rewrite (scan_perm fs _ _ _ (effective_markers_perm _ _ Hperm)).
Qed.

Lemma find_by_markers_marker_order_irrelevant_witness :
  _find_by_markers monorepo_denied (new_finder monorepo_start) (Some ["a"; "b"; "c"])
  = _find_by_markers monorepo_denied (new_finder monorepo_start) (Some ["c"; "a"; "b"]).
Proof.
  apply (find_by_markers_marker_order_irrelevant monorepo_denied
           (new_finder monorepo_start) ["a"; "b"; "c"] ["c"; "a"; "b"]).
  apply (bool_decide_unpack _). by vm_compute.
Defined.

End extras_markers.

(** * Further properties of [_find_by_structure] *)

Section structure_closed.
Import Structure Traversal.
Context (fs : FileSystem).

Lemma structure_loop_first fuel st :
  _MAX_TRAVERSAL_DEPTH - depth st < fuel →
  loop fs fuel st
  = Some (first_qualifying fs
            (take (_MAX_TRAVERSAL_DEPTH - depth st) (ancestors (current st)))).
Proof.
  revert st. induction fuel as [|fuel IH]; intros st Hfuel; [lia|].
  cbn [loop]. destruct (guard st) eqn:Hg.
  - apply structure_guard_true in Hg as [Hroot Hdepth].
    rewrite (ancestors_cons _ Hroot).
    replace (_MAX_TRAVERSAL_DEPTH - depth st)
      with (S (_MAX_TRAVERSAL_DEPTH - S (depth st))) by depth_lia.
    cbn [take first_qualifying].
    destruct (qualifies fs (current st)) as [[]|e]; [done| |done].
    rewrite IH by depth_lia. done.
  - apply not_true_iff_false in Hg. rewrite structure_guard_true in Hg.
    destruct (decide (current st = root)) as [->|Hroot].
    + by rewrite ancestors_root, take_nil.
    + assert (¬ depth st < _MAX_TRAVERSAL_DEPTH) by tauto.
      replace (_MAX_TRAVERSAL_DEPTH - depth st) with 0 by depth_lia.
      by rewrite take_0.
Qed.

Lemma first_qualifying_Some dirs d :
  first_qualifying fs dirs = Ret (Some d) →
  ∃ i, dirs !! i = Some d ∧ qualifies fs d = Ret true ∧
       ∀ j d', j < i → dirs !! j = Some d' → qualifies fs d' = Ret false.
Proof.
  induction dirs as [|d0 dirs IH]; [done|]. cbn [first_qualifying].
  destruct (qualifies fs d0) as [[]|e] eqn:Hq; [| |done].
  - intros [= <-]. exists 0. split_and!; [done..|]. intros j d' Hj. lia.
  - intros (i & Hi & Hd & Hbefore)%IH. exists (S i). split_and!; [done..|].
    intros [|j] d' Hj; simpl.
    + by intros [= <-].
    + apply Hbefore. lia.
Qed.

Lemma first_qualifying_Raise dirs i d e :
  dirs !! i = Some d →
  qualifies fs d = Raise e →
  (∀ j d', j < i → dirs !! j = Some d' → qualifies fs d' = Ret false) →
  first_qualifying fs dirs = Raise e.
Proof.
  revert i. induction dirs as [|d0 dirs IH]; intros i; [done|].
  destruct i as [|i]; simpl.
  - intros [= ->] -> _. done.
  - intros Hi Hq Hbefore. rewrite (Hbefore 0 d0) by (done || lia).
    apply (IH i); [done..|]. intros j d' Hj. apply (Hbefore (S j)). lia.
Qed.

End structure_closed.

Section tree_structure.
Import TreeFS.

(** In a well-formed tree nothing lies below a regular file, so a file
    never passes the structure test. *)
Lemma tree_file_not_qualifying (es : entries) sp :
  well_formed es →
  fs_is_file (to_fs es) sp = Ret true →
  Structure.qualifies (to_fs es) sp = Ret false.
Proof.
  intros [_ Hwf] Hfile. simpl in Hfile.
  injection Hfile as Hfile. apply bool_decide_eq_true in Hfile.
  assert (∀ child, lookup es (joinpath sp child) = None) as Hnone.
  { intros child. unfold lookup, joinpath.
    rewrite bool_decide_eq_false_2 by by destruct sp.
    destruct (find_entry es (sp ++ [child])) as [k|] eqn:Hfind; [|done].
    apply find_entry_elem in Hfind.
    rewrite Forall_forall in Hwf. destruct (Hwf _ Hfind) as [_ Hdir].
    simpl in Hdir. rewrite parent_snoc in Hdir. congruence. }
  unfold Structure.qualifies, Structure.exists_and_is_dir. simpl.
  by rewrite !Hnone.
Qed.

End tree_structure.

Section extras_structure.
Import Structure Traversal TreeFS Scenarios Faults.

(** X6. [_find_by_structure] in closed form: it returns the nearest of the
    first [_MAX_TRAVERSAL_DEPTH] non-root ancestors of the start path (the
    start path itself included) that has a src/ or lib/ subdirectory and
    directly holds a .py entry; it returns [None] when there is none, and
    raises as soon as a probe raises before one is found. *)
Theorem find_by_structure_closed_form
    (fs : FileSystem) (self : ProjectRootFinder) (sp : list string) :
  start_path self = Some sp →
  _find_by_structure fs self = first_qualifying fs (reach sp).
Proof.
  intros Hsp.
  pose proof (find_by_structure_fuel_enough fs self (S _MAX_TRAVERSAL_DEPTH)
                ltac:(lia)) as Hf.
  unfold find_fuel in Hf. rewrite Hsp in Hf.
  rewrite structure_loop_first in Hf by depth_lia.
  injection Hf as <-. reflexivity.
Qed.

Lemma find_by_structure_closed_form_witness :
  _find_by_structure (to_fs layout_project) (new_finder ["project"; "src"; "pkg"])
  = first_qualifying (to_fs layout_project) (reach ["project"; "src"; "pkg"]).
Proof.
  apply (find_by_structure_closed_form (to_fs layout_project)
           (new_finder ["project"; "src"; "pkg"]) ["project"; "src"; "pkg"]).
  reflexivity.
Defined.

(** X7. A directory returned by [_find_by_structure] is the [i]-th ancestor
    of the start path for some [i < 50], it is not the root, it passes the
    structure test, and every ancestor nearer to the start fails it. *)
Theorem find_by_structure_returns_nearest
    (fs : FileSystem) (self : ProjectRootFinder) (d : list string) :
  _find_by_structure fs self = Ret (Some d) →
  ∃ sp i,
    start_path self = Some sp ∧ i < 50 ∧
    ancestors sp !! i = Some d ∧ distance sp d = i ∧
    d ≠ root ∧ d `prefix_of` sp ∧
    qualifies fs d = Ret true ∧
    ∀ j d', j < i → ancestors sp !! j = Some d' → qualifies fs d' = Ret false.
Proof.
  intros Hfind.
  destruct (find_by_structure_Some _ _ _ Hfind) as (sp & Hsp & _).
  rewrite (find_by_structure_closed_form _ _ _ Hsp) in Hfind.
  apply first_qualifying_Some in Hfind as (i & Hi & Hq & Hbefore).
  unfold reach in Hi. apply lookup_take_Some in Hi as [Hi Hlt].
  destruct (ancestors_lookup _ _ _ Hi) as (_ & Hroot & Hpre & Hdist).
  exists sp, i. split_and!; [done..|].
  intros j d' Hj Hd'. apply (Hbefore j); [done|].
  unfold reach. rewrite lookup_take_lt by (unfold _MAX_TRAVERSAL_DEPTH in *; lia). done.
Qed.

Lemma find_by_structure_returns_nearest_witness :
  ∃ sp i,
    start_path (new_finder ["project"; "src"; "pkg"]) = Some sp ∧ i < 50 ∧
    ancestors sp !! i = Some ["project"] ∧ distance sp ["project"] = i ∧
    ["project"] ≠ root ∧ ["project"] `prefix_of` sp ∧
    qualifies (to_fs layout_project) ["project"] = Ret true ∧
    ∀ j d', j < i → ancestors sp !! j = Some d' →
            qualifies (to_fs layout_project) d' = Ret false.
Proof.
  apply (find_by_structure_returns_nearest (to_fs layout_project)
           (new_finder ["project"; "src"; "pkg"])).
  by vm_compute.
Defined.

(** X8. [_find_by_structure] terminates: any fuel above
    [_MAX_TRAVERSAL_DEPTH] lets the model return, always with the same
    result; the loop body runs at most 50 times and at most once per
    component of the start path. *)
Theorem find_by_structure_terminates
    (fs : FileSystem) (self : ProjectRootFinder) :
  (∀ fuel, _MAX_TRAVERSAL_DEPTH < fuel →
     find_fuel fuel fs self = Some (_find_by_structure fs self)) ∧
  (∀ fuel sp,
     length (visited fs fuel {| current := sp; depth := 0 |}) ≤ 50 ∧
     length (visited fs fuel {| current := sp; depth := 0 |}) ≤ length sp).
Proof.
  split.
  - intros fuel Hfuel. by apply find_by_structure_fuel_enough.
  - intros fuel sp.
    pose proof (structure_visited_bound fs fuel {| current := sp; depth := 0 |}).
    depth_lia.
Qed.

Lemma find_by_structure_terminates_witness :
  find_fuel 75 (to_fs deep_project) (new_finder deep_file)
  = Some (_find_by_structure (to_fs deep_project) (new_finder deep_file)).
Proof.
  apply (proj1 (find_by_structure_terminates (to_fs deep_project)
                  (new_finder deep_file))).
  unfold _MAX_TRAVERSAL_DEPTH. lia.
Defined.

(** X9. Unlike the marker strategy, [_find_by_structure] has no [try]: when
    a probe raises at the [i]-th ancestor, [i < 50], and every nearer
    ancestor has failed the test, the call raises that exception. *)
Theorem find_by_structure_propagates_probe_errors
    (fs : FileSystem) (self : ProjectRootFinder) (sp d : list string)
    (i : nat) (e : exn) :
  start_path self = Some sp →
  i < _MAX_TRAVERSAL_DEPTH →
  ancestors sp !! i = Some d →
  qualifies fs d = Raise e →
  (∀ j d', j < i → ancestors sp !! j = Some d' → qualifies fs d' = Ret false) →
  _find_by_structure fs self = Raise e.
Proof.
  intros Hsp Hi Hd Hq Hbefore.
  rewrite (find_by_structure_closed_form _ _ _ Hsp).
  apply (first_qualifying_Raise _ _ i d); [|done|].
  - unfold reach. by rewrite lookup_take_lt.
  - intros j d' Hj. unfold reach. rewrite lookup_take_lt by lia. by apply Hbefore.
Qed.

Lemma find_by_structure_propagates_probe_errors_witness :
  _find_by_structure layout_denied (new_finder ["project"; "src"; "pkg"])
  = Raise (OSError "[Errno 13] Permission denied").
Proof.
  apply (find_by_structure_propagates_probe_errors layout_denied
           (new_finder ["project"; "src"; "pkg"])
           ["project"; "src"; "pkg"] ["project"; "src"; "pkg"] 0).
  - reflexivity.
  - unfold _MAX_TRAVERSAL_DEPTH. lia.
  - reflexivity.
  - reflexivity.
  - intros j d' Hj. lia.
Defined.

(** X10. Within the hop budget a regular-file start costs nothing: in a
    well-formed tree, from a regular file at most 50 components deep
    [_find_by_structure] returns what it returns from the file's parent
    directory. *)
Theorem find_by_structure_file_start_within_budget
    (es : entries) (self : ProjectRootFinder) (sp : list string) :
  well_formed es →
  start_path self = Some sp →
  fs_is_file (to_fs es) sp = Ret true →
  length sp ≤ _MAX_TRAVERSAL_DEPTH →
  _find_by_structure (to_fs es) self
  = _find_by_structure (to_fs es)
      {| start_path := Some (parent sp); _cache := _cache self |}.
Proof.
  intros Hwf Hsp Hfile Hlen.
  rewrite (find_by_structure_closed_form _ _ sp Hsp).
  rewrite (find_by_structure_closed_form _
             {| start_path := Some (parent sp); _cache := _cache self |}
             (parent sp) eq_refl).
  assert (sp ≠ root) as Hroot.
  { intros ->. simpl in Hfile. by injection Hfile. }
  unfold reach. rewrite (ancestors_cons _ Hroot).
  unfold _MAX_TRAVERSAL_DEPTH in *. cbn [take first_qualifying].
  rewrite (tree_file_not_qualifying _ _ Hwf Hfile).
  pose proof (parent_shorter _ Hroot).
  by rewrite !take_ge by (rewrite ancestors_length; lia).
Qed.

Lemma find_by_structure_file_start_within_budget_witness :
  _find_by_structure (to_fs layout_project)
    (new_finder ["project"; "src"; "app.py"])
  = _find_by_structure (to_fs layout_project)
      {| start_path := Some (parent ["project"; "src"; "app.py"]);
         _cache := _cache (new_finder ["project"; "src"; "app.py"]) |}.
Proof.
  apply (find_by_structure_file_start_within_budget layout_project
           (new_finder ["project"; "src"; "app.py"]) ["project"; "src"; "app.py"]).
  - apply (bool_decide_unpack _). by vm_compute.
  - reflexivity.
  - reflexivity.
  - unfold _MAX_TRAVERSAL_DEPTH. simpl. lia.
Defined.

End extras_structure.

(** * Further properties of [find_root] *)

Section find_root_order.
Context (ms : Methods).

Lemma try_methods_filter_known l :
  try_methods (method_map ms) (filter known_method l)
  = try_methods (method_map ms) l.
Proof.
  induction l as [|m l IH]; [done|].
  pose proof (method_map_known ms m) as Hk.
  destruct (decide (known_method m)) as [Hm|Hm].
  - rewrite filter_cons_True by done. cbn [try_methods]. by rewrite IH.
  - rewrite filter_cons_False by done. cbn [try_methods].
    destruct (method_map ms !! m) as [f|] eqn:Hlook; [|done].
    destruct Hm. apply Hk. by eexists.
Qed.

(** A result comes from the first entry of the list that has one. *)
Lemma try_methods_first l p calls :
  try_methods (method_map ms) l = (Some p, calls) →
  ∃ before m after,
    l = before ++ m :: after ∧
    Forall (yields_no_result ms) before ∧
    method_map ms !! m = Some (Ret (Some p)) ∧
    calls = filter known_method before ++ [m].
Proof.
  revert calls. induction l as [|m l IH]; intros calls; [done|].
  destruct (decide (yields_no_result ms m)) as [Hm|Hm].
  - rewrite try_methods_skip by done.
    destruct (try_methods (method_map ms) l) as [r calls'] eqn:Htry.
    cbn [fst snd]. intros [= -> <-].
    destruct (IH _ eq_refl) as (before & m' & after & -> & Hbefore & Hm' & ->).
    exists (m :: before), m', after. split_and!; [done|by constructor|done|].
    by rewrite (filter_app _ [m] before), (assoc_L (++)).
  - unfold yields_no_result in Hm. cbn [try_methods].
    destruct (method_map ms !! m) as [[[q|]|e]|] eqn:Hlook; try (by destruct Hm).
    intros [= -> <-]. exists [], m, l. split_and!; [done|by constructor|done|done].
Qed.

Lemma try_methods_all_fail l calls :
  try_methods (method_map ms) l = (None, calls) → calls = filter known_method l.
Proof.
  intros Htry.
  assert (Forall (yields_no_result ms) l) as Hall.
  { apply try_methods_None. by rewrite Htry. }
  pose proof (try_methods_skip_all ms _ [] Hall) as Hskip.
  rewrite app_nil_r, Htry in Hskip. injection Hskip as ->. by rewrite app_nil_r.
Qed.

End find_root_order.

Section extras_find_root.
Import TreeFS Scenarios.

(** X11. Unknown strategy names are inert: a call of [find_root] gives the
    same result, leaves the same instance and invokes the same strategies as
    the call with the unknown names removed from the list. *)
Theorem find_root_ignores_unknown_names
    (ms : Methods) (self : ProjectRootFinder) (search_methods : list string) :
  find_root ms self (Some search_methods)
  = find_root ms self (Some (filter known_method search_methods)).
Proof.
  unfold find_root. destruct (_cache self); [done|].
  change (default _ (Some ?l)) with l. by rewrite try_methods_filter_known.
Qed.

(** X12. Strategies are tried in list order and none is skipped: on an
    instance with an empty cache, the strategies invoked are an initial
    segment of the known names of the list; a returned path comes from the
    first entry of the list that has one, and the segment ends with it; when
    the call raises, all known names of the list have been invoked. *)
Theorem find_root_tries_in_list_order
    (ms : Methods) (self self' : ProjectRootFinder)
    (search_methods : option (list string)) (r : exc (list string))
    (calls : list string) :
  _cache self = None →
  find_root ms self search_methods = (r, self', calls) →
  calls `prefix_of`
    filter known_method (default default_search_methods search_methods) ∧
  (∀ p, r = Ret p →
     ∃ before m after,
       default default_search_methods search_methods = before ++ m :: after ∧
       Forall (yields_no_result ms) before ∧
       method_map ms !! m = Some (Ret (Some p)) ∧
       calls = filter known_method before ++ [m]) ∧
  (∀ e, r = Raise e →
     calls = filter known_method (default default_search_methods search_methods)).
Proof.
  intros Hc. rewrite find_root_uncached by done.
  destruct (try_methods _ _) as [[q|] calls'] eqn:Htry; intros [= <- <- <-].
  - destruct (try_methods_first _ _ _ _ Htry)
      as (before & m & after & Hl & Hbefore & Hm & ->).
    split_and!; [|by intros p [= <-]; eauto 10|done].
    assert (known_method m) as Hknown by (apply (method_map_known ms); eauto).
    rewrite Hl, filter_app, filter_cons_True by done.
    apply prefix_app, prefix_cons, prefix_nil.
  - apply try_methods_all_fail in Htry as ->. by split_and!.
Qed.

Lemma find_root_tries_in_list_order_witness :
  ["git"; "markers"] `prefix_of`
    filter known_method
      (default default_search_methods
         (Some ["git"; "nonsense"; "markers"; "structure"; "hg"])).
Proof.
  apply (find_root_tries_in_list_order venv_methods venv_finder
           {| start_path := start_path venv_finder; _cache := Some ["project"] |}
           (Some ["git"; "nonsense"; "markers"; "structure"; "hg"])
           (Ret ["project"]) ["git"; "markers"]).
  - reflexivity.
  - by vm_compute.
Defined.

End extras_find_root.

(** * Version-control probes and the entry points *)

Section vcs_facts.
Context (h : Host).

(** A probe never raises; it has a result exactly when the command ran
    and printed something other than blanks. *)
Lemma run_vcs_command_cases self cmd :
  (∃ stdout,
     subprocess_run h cmd (start_path self) = Ret stdout ∧
     str_strip h stdout ≠ EmptyString ∧
     Vcs._run_vcs_command h self cmd = Ret (Some (Path_of_str h (str_strip h stdout))))
  ∨ (match subprocess_run h cmd (start_path self) with
     | Ret stdout => str_strip h stdout = EmptyString
     | Raise _ => True
     end ∧
     Vcs._run_vcs_command h self cmd = Ret None).
Proof.
  unfold Vcs._run_vcs_command.
  destruct (subprocess_run h cmd (start_path self)) as [stdout|e]; [|by right].
  case_bool_decide; [by right|left; eauto].
Qed.

Lemma method_map_lookups (ms : Methods) :
  method_map ms !! "git" = Some (find_by_git ms) ∧
  method_map ms !! "svn" = Some (find_by_svn ms) ∧
  method_map ms !! "hg" = Some (find_by_hg ms) ∧
  method_map ms !! "markers" = Some (find_by_markers ms) ∧
  method_map ms !! "structure" = Some (find_by_structure ms).
Proof. by split_and!. Qed.

End vcs_facts.

Section extras_host.
Import TreeFS DemoHost.

(** X13. A version-control top-level takes precedence over everything read
    from the filesystem: when the git command succeeds and prints something
    other than blanks, [find_root] with the default strategy list returns the
    stripped output as a path, caches it, and has invoked the git strategy
    only, whatever the filesystem holds. *)
Theorem find_root_git_toplevel_wins
    (h : Host) (fs : FileSystem) (self : ProjectRootFinder) (stdout : string) :
  _cache self = None →
  subprocess_run h Vcs.git_command (start_path self) = Ret stdout →
  str_strip h stdout ≠ EmptyString →
  find_root (host_methods h fs self) self None
  = (Ret (Path_of_str h (str_strip h stdout)),
     {| start_path := start_path self;
        _cache := Some (Path_of_str h (str_strip h stdout)) |},
     ["git"]).
Proof.
  intros Hc Hrun Hout.
  apply (find_root_first_success _ _ [] "git" ["svn"; "hg"; "markers"; "structure"]);
    [done|by constructor|].
  destruct (method_map_lookups (host_methods h fs self)) as (-> & _).
  cbn [host_methods bound_methods find_by_git]. f_equal.
  unfold Vcs._find_by_git, Vcs._run_vcs_command. rewrite Hrun.
  by rewrite bool_decide_eq_false_2.
Qed.

Lemma find_root_git_toplevel_wins_witness :
  find_root (host_methods in_repo (to_fs work_tree) (new_finder ["work"; "app"]))
    (new_finder ["work"; "app"]) None
  = (Ret ["work"],
     {| start_path := Some ["work"; "app"]; _cache := Some ["work"] |},
     ["git"]).
Proof.
  apply (find_root_git_toplevel_wins in_repo (to_fs work_tree)
           (new_finder ["work"; "app"]) (String.append "/work" newline)).
  - reflexivity.
  - reflexivity.
  - by vm_compute.
Defined.

(** X14. Version-control probes degrade silently: when each of the three
    commands fails in any way (non-zero exit, timeout, missing executable)
    or prints only blanks, [find_root] with the default list invokes git,
    svn and hg and then behaves as the call with the list
    ["markers"; "structure"]. *)
Theorem find_root_vcs_failures_fall_through
    (h : Host) (fs : FileSystem) (self : ProjectRootFinder) :
  _cache self = None →
  Forall (λ cmd, match subprocess_run h cmd (start_path self) with
                 | Ret stdout => str_strip h stdout = EmptyString
                 | Raise _ => True
                 end)
         [Vcs.git_command; Vcs.svn_command self; Vcs.hg_command] →
  (find_root (host_methods h fs self) self None).1
  = (find_root (host_methods h fs self) self (Some ["markers"; "structure"])).1 ∧
  (find_root (host_methods h fs self) self None).2
  = ["git"; "svn"; "hg"]
    ++ (find_root (host_methods h fs self) self (Some ["markers"; "structure"])).2.
Proof.
  intros Hc Hall.
  apply Forall_cons in Hall as [Hgit Hall].
  apply Forall_cons in Hall as [Hsvn Hall].
  apply Forall_cons in Hall as [Hhg _].
  assert (∀ cmd,
            match subprocess_run h cmd (start_path self) with
            | Ret stdout => str_strip h stdout = EmptyString
            | Raise _ => True
            end → Vcs._run_vcs_command h self cmd = Ret None) as Hnone.
  { intros cmd Hcmd. unfold Vcs._run_vcs_command.
    destruct (subprocess_run h cmd (start_path self)); [|done].
    by rewrite bool_decide_eq_true_2. }
  rewrite !find_root_uncached by done.
  change (default _ None) with (["git"; "svn"; "hg"] ++ ["markers"; "structure"]).
  change (default _ (Some ?l)) with l.
  rewrite try_methods_skip_all; last first.
  { destruct (method_map_lookups (host_methods h fs self)) as (Hg & Hs & Hh & _).
    repeat constructor; unfold yields_no_result.
    - rewrite Hg. cbn [host_methods bound_methods find_by_git].
      unfold Vcs._find_by_git. by rewrite Hnone.
    - rewrite Hs. cbn [host_methods bound_methods find_by_svn].
      unfold Vcs._find_by_svn. by rewrite Hnone.
    - rewrite Hh. cbn [host_methods bound_methods find_by_hg].
      unfold Vcs._find_by_hg. by rewrite Hnone. }
  destruct (try_methods _ ["markers"; "structure"]) as [[p|] calls]; by split.
Qed.

Lemma find_root_vcs_failures_fall_through_witness :
  (find_root (host_methods no_git (to_fs work_tree) (new_finder ["work"; "app"]))
     (new_finder ["work"; "app"]) None).1
  = (find_root (host_methods no_git (to_fs work_tree) (new_finder ["work"; "app"]))
       (new_finder ["work"; "app"]) (Some ["markers"; "structure"])).1.
Proof.
  apply (find_root_vcs_failures_fall_through no_git (to_fs work_tree)
           (new_finder ["work"; "app"])).
  - reflexivity.
  - repeat constructor.
Defined.

End extras_host.

Section caller_facts.
Context (h : Host).

Lemma first_external_frame_Some frames d :
  Caller.first_external_frame h frames = Ret (Some d) →
  ∃ i filename frame_file,
    frames !! i = Some filename ∧
    str_contains "ipykernel_" filename = false ∧
    resolve h filename = Ret frame_file ∧
    ¬ _LIBRARY_ROOT h `prefix_of` frame_file ∧
    _is_stdlib_or_site_packages h frame_file = false ∧
    d = parent frame_file ∧
    ∀ j f, j < i → frames !! j = Some f → skipped_frame h f.
Proof.
  induction frames as [|f0 frames IH]; [done|].
  cbn [Caller.first_external_frame].
  assert (Caller.first_external_frame h frames = Ret (Some d) →
          skipped_frame h f0 →
          ∃ i filename frame_file,
            (f0 :: frames) !! i = Some filename ∧
            str_contains "ipykernel_" filename = false ∧
            resolve h filename = Ret frame_file ∧
            ¬ _LIBRARY_ROOT h `prefix_of` frame_file ∧
            _is_stdlib_or_site_packages h frame_file = false ∧
            d = parent frame_file ∧
            ∀ j f, j < i → (f0 :: frames) !! j = Some f → skipped_frame h f)
    as Hskip.
  { intros (i & filename & file & Hi & ? & ? & ? & ? & ? & Hbefore)%IH Hf0.
    exists (S i), filename, file. split_and!; [done..|].
    intros [|j] f Hj; simpl.
    - by intros [= <-].
    - apply Hbefore. lia. }
  destruct (str_contains "ipykernel_" f0) eqn:Hkernel.
  { intros Hrest. apply Hskip; [done|by left]. }
  unfold mbind, exc_bind.
  destruct (resolve h f0) as [file|e] eqn:Hresolve; [|done].
  unfold Caller._is_library_internal. case_bool_decide as Hinternal.
  { intros Hrest. apply Hskip; [done|]. right. eauto. }
  destruct (_is_stdlib_or_site_packages h file) eqn:Hstdlib.
  { intros Hrest. apply Hskip; [done|]. right. eauto. }
  intros [= <-]. exists 0, f0, file. split_and!; [done..|].
  intros j f Hj. lia.
Qed.

End caller_facts.

Section extras_entry_points.
Import TreeFS DemoHost.

(** X15. [ensure_search_path] appends the root to [sys.path] at most once
    and never disturbs what is there: the old list is an initial segment of
    the new one, which is at most one entry longer and duplicate-free if the
    old one was; after a successful call the root's path is on the list, and
    if it already was the list is unchanged; a second call changes nothing;
    and when no root is found the exception passes through with [sys.path]
    untouched. *)
Theorem ensure_search_path_appends_once
    (h : Host) (fs : FileSystem) (sys_path sys_path' : list string) (r : exc ()) :
  ensure_search_path h fs sys_path = (r, sys_path') →
  sys_path `prefix_of` sys_path' ∧
  length sys_path' ≤ S (length sys_path) ∧
  (NoDup sys_path → NoDup sys_path') ∧
  ensure_search_path h fs sys_path' = (r, sys_path') ∧
  (∀ root_dir, get_root_path h fs None None = Ret root_dir →
     r = Ret () ∧ str_path root_dir ∈ sys_path' ∧
     (str_path root_dir ∈ sys_path → sys_path' = sys_path)) ∧
  (∀ e, get_root_path h fs None None = Raise e →
     r = Raise e ∧ sys_path' = sys_path).
Proof.
  unfold ensure_search_path.
  destruct (get_root_path h fs None None) as [root_dir|e].
  - case_bool_decide as Hin; intros [= <- <-].
    + rewrite bool_decide_eq_true_2 by done.
      split_and!; [done|lia|done|done| |done].
      by intros ? [= <-].
    + rewrite bool_decide_eq_true_2 by (apply elem_of_app; right; by left).
      split_and!; [by apply prefix_app_r|rewrite length_app; simpl; lia| |done| |done].
      * intros Hnodup. apply NoDup_app. split_and!; [done| |by apply NoDup_singleton].
        intros x Hx ->%list_elem_of_singleton. done.
      * intros ? [= <-]. split_and!; [done| |done].
        apply elem_of_app. right. by left.
  - intros [= <- <-]. split_and!; [done|lia|done|done|done|].
    by intros ? [= <-].
Qed.

Lemma ensure_search_path_appends_once_witness :
  ensure_search_path no_git (to_fs work_tree) ["/usr/lib"; "/srv/app"]
  = (Ret (), ["/usr/lib"; "/srv/app"; "/work"]) ∧
  ensure_search_path no_git (to_fs work_tree) ["/usr/lib"; "/srv/app"; "/work"]
  = (Ret (), ["/usr/lib"; "/srv/app"; "/work"]).
Proof.
  assert (ensure_search_path no_git (to_fs work_tree) ["/usr/lib"; "/srv/app"]
          = (Ret (), ["/usr/lib"; "/srv/app"; "/work"])) as Hfirst.
  { by vm_compute. }
  split; [exact Hfirst|].
  by destruct (ensure_search_path_appends_once _ _ _ _ _ Hfirst)
    as (_ & _ & _ & Hagain & _).
Defined.

(** X16. A start path taken from the call stack is the directory of the
    first frame, counted from the caller of [_get_caller_from_stack], that is
    not a notebook-kernel temporary file and does not resolve into the
    library itself or into the standard library or installed packages; every
    frame between is of one of these kinds.  The frame of the function itself
    is never used. *)
Theorem caller_from_stack_is_first_external_frame
    (h : Host) (d : list string) :
  Caller._get_caller_from_stack h = Some d →
  ∃ stack i filename frame_file,
    inspect_stack h = Ret stack ∧
    1 ≤ i ∧ stack !! i = Some filename ∧
    str_contains "ipykernel_" filename = false ∧
    resolve h filename = Ret frame_file ∧
    ¬ _LIBRARY_ROOT h `prefix_of` frame_file ∧
    _is_stdlib_or_site_packages h frame_file = false ∧
    d = parent frame_file ∧
    ∀ j f, 1 ≤ j < i → stack !! j = Some f → skipped_frame h f.
Proof.
  unfold Caller._get_caller_from_stack, mbind, exc_bind.
  destruct (inspect_stack h) as [stack|e]; [|done].
  destruct (Caller.first_external_frame h (drop 1 stack)) as [r|e] eqn:Hwalk; [|done].
  intros ->.
  apply first_external_frame_Some in Hwalk
    as (i & filename & file & Hi & ? & ? & ? & ? & ? & Hbefore).
  rewrite lookup_drop in Hi.
  exists stack, (1 + i), filename, file. split_and!; [done|lia|done..|].
  intros j f [Hj1 Hj2] Hf. apply (Hbefore (j - 1)); [lia|].
  rewrite lookup_drop. by replace (1 + (j - 1)) with j by lia.
Qed.

Lemma caller_from_stack_is_first_external_frame_witness :
  ∃ stack i filename frame_file,
    inspect_stack in_repo = Ret stack ∧
    1 ≤ i ∧ stack !! i = Some filename ∧
    str_contains "ipykernel_" filename = false ∧
    resolve in_repo filename = Ret frame_file ∧
    ¬ _LIBRARY_ROOT in_repo `prefix_of` frame_file ∧
    _is_stdlib_or_site_packages in_repo frame_file = false ∧
    ["work"; "app"] = parent frame_file ∧
    ∀ j f, 1 ≤ j < i → stack !! j = Some f → skipped_frame in_repo f.
Proof.
  apply (caller_from_stack_is_first_external_frame in_repo ["work"; "app"]).
  by vm_compute.
Defined.

(** X17. The start path found without an explicit argument comes from the
    first tier that has one: the call stack, else the directory of the main
    script (the first entry of [sys.argv], non-empty, resolving to an
    existing regular file), else the working directory.  Errors in the first
    two tiers are swallowed; the discovery raises only when both are empty
    and the working directory cannot be determined. *)
Theorem caller_project_path_tiers (h : Host) (fs : FileSystem) :
  (∀ p, Caller._get_caller_project_path h fs = Ret p →
     Caller._get_caller_from_stack h = Some p ∨
     (Caller._get_caller_from_stack h = None ∧
      Caller._get_main_script_path h fs = Some p) ∨
     (Caller._get_caller_from_stack h = None ∧
      Caller._get_main_script_path h fs = None ∧ cwd h = Ret p)) ∧
  (∀ e, Caller._get_caller_project_path h fs = Raise e →
     Caller._get_caller_from_stack h = None ∧
     Caller._get_main_script_path h fs = None ∧ cwd h = Raise e) ∧
  (∀ d, Caller._get_main_script_path h fs = Some d →
     ∃ argv0 rest main_script,
       sys_argv h = argv0 :: rest ∧ argv0 ≠ EmptyString ∧
       resolve h argv0 = Ret main_script ∧
       fs_exists fs main_script = Ret true ∧
       fs_is_file fs main_script = Ret true ∧
       d = parent main_script).
Proof.
  split_and!.
  - intros p. unfold Caller._get_caller_project_path.
    destruct (Caller._get_caller_from_stack h) as [c|]; [intros [= ->]; by left|].
    destruct (Caller._get_main_script_path h fs) as [m|]; [intros [= ->]; by right; left|].
    intros Hcwd. by right; right.
  - intros e. unfold Caller._get_caller_project_path.
    destruct (Caller._get_caller_from_stack h) as [c|]; [done|].
    by destruct (Caller._get_main_script_path h fs) as [m|].
  - intros d. unfold Caller._get_main_script_path, mbind, exc_bind, mret, exc_ret.
    destruct (sys_argv h) as [|argv0 rest]; [done|].
    case_bool_decide as Hempty; [done|].
    destruct (resolve h argv0) as [main_script|] eqn:Hresolve; [|done].
    destruct (fs_exists fs main_script) as [[]|] eqn:Hex; [| |done]; [|done].
    destruct (fs_is_file fs main_script) as [[]|] eqn:Hfile; [| |done]; [|done].
    intros [= <-]. by exists argv0, rest, main_script.
Qed.

Lemma caller_project_path_tiers_witness :
  Caller._get_caller_from_stack in_repo = Some ["work"; "app"] ∨
  (Caller._get_caller_from_stack in_repo = None ∧
   Caller._get_main_script_path in_repo (to_fs work_tree) = Some ["work"; "app"]) ∨
  (Caller._get_caller_from_stack in_repo = None ∧
   Caller._get_main_script_path in_repo (to_fs work_tree) = None ∧
   cwd in_repo = Ret ["work"; "app"]).
Proof.
  apply (proj1 (caller_project_path_tiers in_repo (to_fs work_tree))).
  by vm_compute.
Defined.

End extras_entry_points.

(** * The bean registry *)

Section extras_beans.
Import AppContext.
Context {Bean : Type}.

(** X18. Registering and retrieving beans: a successful [register_bean]
    happens exactly when the name was free, after it [get_bean] returns the
    instance under that name and what it returned before under every other
    name, and the registry has grown by one; registering a name that is
    taken raises [ValueError] and leaves the registry as it was, so the first
    registration stays; [get_bean] raises [ValueError] exactly on the names
    that were never registered. *)
Theorem register_bean_get_bean
    (registry registry' : gmap string Bean) (name : string) (instance : Bean)
    (r : result ()) :
  register_bean registry name instance = (r, registry') →
  (r = Return () ↔ registry !! name = None) ∧
  (r = Return () →
     get_bean registry' name = Return instance ∧
     (∀ other, other ≠ name → get_bean registry' other = get_bean registry other) ∧
     size registry' = S (size registry)) ∧
  (r ≠ Return () →
     (∃ msg, r = ValueError msg) ∧ registry' = registry ∧
     ∃ first, get_bean registry' name = Return first) ∧
  (∀ other, (∃ msg, get_bean registry' other = ValueError msg)
            ↔ other ≠ name ∧ registry !! other = None).
Proof.
  unfold register_bean, get_bean.
  destruct (registry !! name) as [first|] eqn:Hname; intros [= <- <-].
  - split_and!; [done|done| |].
    + intros _. rewrite Hname. split_and!; by eauto.
    + intros other. destruct (decide (other = name)) as [->|Hne].
      * rewrite Hname. split; [by intros [? [=]]|by intros [[] _]].
      * destruct (registry !! other); split; try done.
        -- by intros [? [=]].
        -- by intros [_ [=]].
        -- by eauto.
  - split_and!; [done| |done|].
    + intros _. rewrite lookup_insert_eq. split_and!; [done| |].
      * intros other Hne. by rewrite lookup_insert_ne.
      * by apply map_size_insert_None.
    + intros other. destruct (decide (other = name)) as [->|Hne].
      * rewrite lookup_insert_eq. split; [by intros [? [=]]|by intros [[] _]].
      * rewrite lookup_insert_ne by done.
        destruct (registry !! other); split; try done.
        -- by intros [? [=]].
        -- by intros [_ [=]].
        -- by eauto.
Qed.

End extras_beans.

Lemma register_bean_get_bean_witness :
  AppContext.get_bean (<["db" := 7]> AppContext.new_registry) "db"
  = AppContext.Return 7.
Proof.
  apply (register_bean_get_bean AppContext.new_registry
           (<["db" := 7]> AppContext.new_registry) "db" 7 (AppContext.Return ())).
  - reflexivity.
  - reflexivity.
Defined.
